(** * Correction chains of pcwg/core/corrections.py

    Shallow embedding of the correction-chain core of PCWG: the [Source]
    and [Correction] node classes, the chain-validity and naming rules,
    the row-wise calculators and the column writes they perform on the
    data frame.

    Modelling choices:
    - Python floats are modelled as real numbers [R].  The density
      correction computes on the numpy [float64] cells of the frame,
      modelled by [f64] (finite, signed infinity or NaN) with IEEE 754
      division, power and product, which raise nothing.
    - A data frame is a list of rows; a row is an association list from
      column names to values.  [row[c]] on a missing column raises
      [KeyError]; assigning a column overwrites it or appends it.
    - [data_frame[c] = data_frame.apply(f, axis=1)] evaluates [f] on every
      row first (any exception aborts the statement) and then writes the
      column: [apply_assign].
    - Exceptions are the constructors of [py_error]; fallible code returns
      [result].
    - The process-wide status sink is modelled only where a claim reads
      it (the deviation-matrix report). *)

From Stdlib Require Import String Ascii List Bool Lia Lra Reals.
From Stdlib Require Import Rpower DecimalString.
Import ListNotations.
Open Scope string_scope.

(** ** Exceptions and results *)

Inductive py_error : Type :=
| Exception (msg : string)
| AttributeError (attr : string)
| KeyError (key : string)
| TypeError (msg : string).

Inductive result (A : Type) : Type :=
| Ok (a : A)
| Err (e : py_error).
Arguments Ok {A} a.
Arguments Err {A} e.

Definition bind {A B} (m : result A) (k : A -> result B) : result B :=
  match m with
  | Ok a => k a
  | Err e => Err e
  end.

Notation "x <- m ;; k" := (bind m (fun x => k))
  (at level 61, m at next level, right associativity).

Definition res_map {A B} (f : A -> B) (m : result A) : result B :=
  match m with
  | Ok a => Ok (f a)
  | Err e => Err e
  end.

(** ** Strings: the operations [calculate_name] uses *)

(** [c in s] for a one-character needle. *)
Fixpoint has_char (c : ascii) (s : string) : bool :=
  match s with
  | EmptyString => false
  | String a s' => Ascii.eqb a c || has_char c s'
  end.

(** [s.replace(" & ", ", ")]: Python's [str.replace] scans left to right
    and rewrites every non-overlapping occurrence of the pattern; here with
    the literal pattern and replacement of corrections.py line 116. *)
Fixpoint replace_sep (s : string) : string :=
  match s with
  | EmptyString => EmptyString
  | String a s1 =>
      match s1 with
      | String b (String c rest) =>
          if Ascii.eqb a " " && Ascii.eqb b "&" && Ascii.eqb c " "
          then ", " ++ replace_sep rest
          else String a (replace_sep s1)
      | _ => String a (replace_sep s1)
      end
  end.

(** [s.startswith(p)] *)
Fixpoint starts_with (p s : string) : bool :=
  match p, s with
  | EmptyString, _ => true
  | String a p', String b s' => Ascii.eqb a b && starts_with p' s'
  | String _ _, EmptyString => false
  end.

(** [p in s] for a string needle. *)
Fixpoint contains (p s : string) : bool :=
  starts_with p s ||
  match s with
  | EmptyString => false
  | String _ s' => contains p s'
  end.

(** Number of positions at which the separator [" & "] starts. *)
Fixpoint count_sep (s : string) : nat :=
  match s with
  | EmptyString => O
  | String _ s' => (if starts_with " & " s then 1 else 0) + count_sep s'
  end.

(** ["{0}".format(x)] for a column name that may be [None]. *)
Definition fmt_opt (s : option string) : string :=
  match s with
  | Some s => s
  | None => "None"
  end.

(** ** Nodes of a correction chain

    [SourceObj] is a [Source] instance, [CorrectionObj] an instance of a
    [Correction] subclass.  Attributes that may be absent from the object
    are options: for [wind_speed_column] of a correction, [None] is an
    absent attribute; for [power_column], the outer option is the presence
    of the attribute and the inner one Python's [None].  The [Source]
    column itself may be Python's [None] ([Source(None)]). *)
Inductive node : Type :=
| SourceObj (wind_speed_column : option string)
            (power_column : option (option string))
| CorrectionObj (correction_name : string)
                (wind_speed_based power_based : bool)
                (source : node)
                (wind_speed_column : option string)
                (power_column : option (option string)).

(** Attribute reads. *)
Definition raw (n : node) : bool :=
  match n with SourceObj _ _ => true | CorrectionObj _ _ _ _ _ _ => false end.

Definition wind_speed_based (n : node) : bool :=
  match n with SourceObj _ _ => true | CorrectionObj _ w _ _ _ _ => w end.

Definition power_based (n : node) : bool :=
  match n with SourceObj _ _ => false | CorrectionObj _ _ p _ _ _ => p end.

(** [None]: the object has no [correction_name] attribute. *)
Definition correction_name (n : node) : option string :=
  match n with SourceObj _ _ => None | CorrectionObj c _ _ _ _ _ => Some c end.

Definition get_correction_name (n : node) : result string :=
  match correction_name n with
  | Some c => Ok c
  | None => Err (AttributeError "correction_name")
  end.

Definition wind_speed_column (n : node) : result (option string) :=
  match n with
  | SourceObj c _ => Ok c
  | CorrectionObj _ _ _ _ (Some c) _ => Ok (Some c)
  | CorrectionObj _ _ _ _ None _ => Err (AttributeError "wind_speed_column")
  end.

Definition power_column (n : node) : option (option string) :=
  match n with
  | SourceObj _ p => p
  | CorrectionObj _ _ _ _ _ p => p
  end.

Definition set_wind_speed_column (c : string) (n : node) : node :=
  match n with
  | SourceObj _ p => SourceObj (Some c) p
  | CorrectionObj nm w pb s _ p => CorrectionObj nm w pb s (Some c) p
  end.

Definition set_power_column (c : option string) (n : node) : node :=
  match n with
  | SourceObj w _ => SourceObj w (Some c)
  | CorrectionObj nm w pb s ws _ => CorrectionObj nm w pb s ws (Some c)
  end.

(** [Source.__init__] *)
Definition Source_init (source_column : option string) : node :=
  SourceObj source_column None.

(** [Correction.can_chain] *)
Definition can_chain (source : node) : bool := wind_speed_based source.

(** [Correction.calculate_name] *)
Definition calculate_name (source : node) (correction_name : string)
  : result string :=
  if raw source then Ok correction_name
  else
    name <- get_correction_name source ;;
    let name := if has_char "&" name then replace_sep name else name in
    Ok (name ++ " & " ++ correction_name).

(** [Correction.__init__]; the closing [Status.add] is not modelled. *)
Definition Correction_init (correction_name : string) (source : node)
  (wind_speed_based : bool) : result node :=
  if negb (can_chain source) then
    parent <- get_correction_name source ;;
    Err (Exception (correction_name ++ " cannot follow " ++ parent))
  else
    name <- calculate_name source correction_name ;;
    Ok (CorrectionObj name wind_speed_based (negb wind_speed_based)
          source None None).

(** ** Data frames *)

Open Scope R_scope.

(** A row whose cells hold values of type [V]; [row] and [frame] hold
    finite floats, modelled as reals. *)
Definition rowT (V : Type) := list (string * V).
Definition frameT (V : Type) := list (rowT V).
Definition row := rowT R.
Definition frame := frameT R.

(** [row[c]] *)
Fixpoint getcol {V} (c : string) (r : rowT V) : result V :=
  match r with
  | [] => Err (KeyError c)
  | (k, v) :: r' => if String.eqb k c then Ok v else getcol c r'
  end.

(** [row[c]] where the key may be [None]. *)
Definition getcol_opt {V} (c : option string) (r : rowT V) : result V :=
  match c with
  | Some c => getcol c r
  | None => Err (KeyError "None")
  end.

(** Writing one value of column [c] into a row. *)
Fixpoint set_col {V} (c : string) (v : V) (r : rowT V) : rowT V :=
  match r with
  | [] => [(c, v)]
  | (k, w) :: r' => if String.eqb k c then (k, v) :: r' else (k, w) :: set_col c v r'
  end.

(** [data_frame.apply(f, axis=1)] *)
Fixpoint apply_rows {V} (f : rowT V -> result V) (df : frameT V)
  : result (list V) :=
  match df with
  | [] => Ok []
  | r :: df' => v <- f r ;; vs <- apply_rows f df' ;; Ok (v :: vs)
  end.

(** [data_frame[c] = series], the series aligned with the rows. *)
Fixpoint assign_col {V} (c : string) (vs : list V) (df : frameT V) : frameT V :=
  match df, vs with
  | r :: df', v :: vs' => set_col c v r :: assign_col c vs' df'
  | _, _ => df
  end.

(** [data_frame[c] = data_frame.apply(f, axis=1)] *)
Definition apply_assign {V} (c : string) (f : rowT V -> result V) (df : frameT V)
  : result (frameT V) :=
  vs <- apply_rows f df ;; Ok (assign_col c vs df).

(** ** Collaborators, specified at their interface *)

(** A power curve: [power(windSpeed)]. *)
Definition power_curve := R -> R.

(** A turbulence-aware power curve: [power(windSpeed, turbulenceIntensity)]
    and [ratedPower]. *)
Record turbulence_power_curve := {
  turbulence_power : R -> R -> R;
  ratedPower : R
}.

(** A row-wise calculator: any object exposing [power(row)]. *)
Definition calculator := row -> result R.

(** ** Calculators *)

(** [PowerCalculator.power] *)
Definition PowerCalculator_power {V} (powerCurve : V -> V)
  (windSpeedColumn : option string) (r : rowT V) : result V :=
  ws <- getcol_opt windSpeedColumn r ;; Ok (powerCurve ws).

(** numpy [float64] values.  [DensityEquivalentWindSpeed] applies its
    calculator to the rows of a real-valued frame, whose cells are numpy
    [float64] scalars: finite numbers, signed infinities and NaN.  Their
    arithmetic never raises (a zero divisor or a negative base only emits a
    [RuntimeWarning]); it follows IEEE 754.  The sign of a zero is not
    modelled: a zero is [+0.0]. *)
Inductive f64 : Type :=
| Fin (x : R)
| Inf (negative : bool)
| NaN.

(** The sign of a non-zero real: [true] when negative. *)
Definition neg_sign (x : R) : bool := if Rlt_dec x 0 then true else false.

(** [x / y] for a [float64] [x] and a Python float [y]. *)
Definition f64_div (x : f64) (y : R) : f64 :=
  match x with
  | Fin a =>
      if Req_EM_T y 0 then
        (if Req_EM_T a 0 then NaN else Inf (neg_sign a))
      else Fin (a / y)
  | Inf n => if Req_EM_T y 0 then Inf n else Inf (xorb n (neg_sign y))
  | NaN => NaN
  end.

(** [x ** (1.0 / 3.0)] for a [float64] [x] (C's [pow] with a positive
    exponent that is not an odd integer); the float [1.0 / 3.0] is the real
    [1/3]. *)
Definition f64_pow_third (x : f64) : f64 :=
  match x with
  | Fin a =>
      if Rlt_dec 0 a then Fin (Rpower a (1 / 3))
      else if Req_EM_T a 0 then Fin 0
      else NaN
  | Inf _ => Inf false
  | NaN => NaN
  end.

(** [x * y] on [float64]. *)
Definition f64_mul (x y : f64) : f64 :=
  match x, y with
  | NaN, _ | _, NaN => NaN
  | Fin a, Fin b => Fin (a * b)
  | Fin a, Inf n | Inf n, Fin a =>
      if Req_EM_T a 0 then NaN else Inf (xorb n (neg_sign a))
  | Inf n, Inf m => Inf (xorb n m)
  end.

Record DensityCorrectionCalculator := {
  dcc_referenceDensity : R;
  dcc_windSpeedColumn : option string;
  dcc_densityColumn : string
}.

(** [DensityCorrectionCalculator.densityCorrectedHubWindSpeed] on a row
    of a real-valued frame. *)
Definition densityCorrectedHubWindSpeed (calc : DensityCorrectionCalculator)
  (r : rowT f64) : result f64 :=
  ws <- getcol_opt (dcc_windSpeedColumn calc) r ;;
  d <- getcol (dcc_densityColumn calc) r ;;
  Ok (f64_mul ws (f64_pow_third (f64_div d (dcc_referenceDensity calc)))).

Record TurbulencePowerCalculator := {
  tpc_powerCurve : turbulence_power_curve;
  tpc_ratedPower : R;
  tpc_windSpeedColumn : option string;
  tpc_turbulenceColumn : string
}.

(** [TurbulencePowerCalculator.power] *)
Definition TurbulencePowerCalculator_power (calc : TurbulencePowerCalculator)
  (r : row) : result R :=
  ws <- getcol_opt (tpc_windSpeedColumn calc) r ;;
  ti <- getcol (tpc_turbulenceColumn calc) r ;;
  Ok (turbulence_power (tpc_powerCurve calc) ws ti).

(** ** Finalisation and the two correction families *)

(** [Source.finalise]; the closing [Status.add] is not modelled. *)
Definition Source_finalise (self : node) (df : frame)
  (power_curve : option power_curve) : result (node * frame) :=
  wsc <- wind_speed_column self ;;
  match power_curve with
  | Some pc =>
      let pcol := fmt_opt wsc ++ " Power" in
      df' <- apply_assign pcol (PowerCalculator_power pc wsc) df ;;
      Ok (set_power_column (Some pcol) self, df')
  | None => Ok (set_power_column None self, df)
  end.

(** [WindSpeedBasedCorrection.__init__] *)
Definition WindSpeedBasedCorrection_init (correction_name : string)
  (source : node) : result node :=
  self <- Correction_init correction_name source true ;;
  name <- get_correction_name self ;;
  Ok (set_wind_speed_column (name ++ " Wind Speed") self).

(** [WindSpeedBasedCorrection.finalise] *)
Definition WindSpeedBasedCorrection_finalise {V} (self : node) (df : frameT V)
  (power_curve : option (V -> V)) : result (node * frameT V) :=
  name <- get_correction_name self ;;
  match power_curve with
  | Some pc =>
      let pcol := name ++ " Power" in
      wsc <- wind_speed_column self ;;
      df' <- apply_assign pcol (PowerCalculator_power pc wsc) df ;;
      Ok (set_power_column (Some pcol) self, df')
  | None => Ok (set_power_column None self, df)
  end.

(** A positional argument of a call: passed, or left out by the caller. *)
Inductive arg (A : Type) : Type :=
| Passed (a : A)
| Missing.
Arguments Passed {A} a.
Arguments Missing {A}.

(** [PowerBasedCorrection.__init__(self, correction_name, source,
    power_curve)].  A call that leaves out [power_curve] raises [TypeError]
    before the body runs.  The stored [power_curve] attribute is not
    modelled: callers pass the curve on explicitly. *)
Definition PowerBasedCorrection_init {A} (correction_name : string)
  (source : node) (power_curve : arg A) : result node :=
  match power_curve with
  | Missing => Err (TypeError "__init__() takes exactly 4 arguments (3 given)")
  | Passed _ =>
      self <- Correction_init correction_name source false ;;
      name <- calculate_name source correction_name ;;
      Ok (set_power_column (Some (name ++ " Power")) self)
  end.

(** [PowerBasedCorrection.finalise] *)
Definition PowerBasedCorrection_finalise (self : node) (df : frame)
  (calc : calculator) : result (node * frame) :=
  match power_column self with
  | Some (Some pcol) =>
      df' <- apply_assign pcol calc df ;; Ok (self, df')
  | Some None => Err (KeyError "None")
  | None => Err (AttributeError "power_column")
  end.

(** ** Concrete corrections *)

(** [DensityEquivalentWindSpeed.__init__]; the status messages are not
    modelled. *)
Definition DensityEquivalentWindSpeed_init (df : frameT f64) (source : node)
  (reference_density : R) (hub_density_column : string)
  (power_curve : option (f64 -> f64)) : result (node * frameT f64) :=
  self <- WindSpeedBasedCorrection_init "Density" source ;;
  swsc <- wind_speed_column source ;;
  let calc := {| dcc_referenceDensity := reference_density;
                 dcc_windSpeedColumn := swsc;
                 dcc_densityColumn := hub_density_column |} in
  wsc <- wind_speed_column self ;;
  df' <- apply_assign (fmt_opt wsc) (densityCorrectedHubWindSpeed calc) df ;;
  WindSpeedBasedCorrection_finalise self df' power_curve.

(** The correction label built by [RotorEquivalentWindSpeed.__init__]
    (lines 193-208) before it calls [WindSpeedBasedCorrection.__init__].
    [float_str] is Python's [str] on floats, used by ["{0}".format]. *)
Definition RotorEquivalentWindSpeed_label (float_str : R -> string)
  (rewsVeer rewsUpflow : bool) (rewsExponent : R) : string :=
  let exponent_type :=
    if Req_EM_T rewsExponent 3 then "REWS"
    else if Req_EM_T rewsExponent 2 then "RAWS"
    else "REWS-Exponent=" ++ float_str rewsExponent in
  let rews_type := "Speed" in
  let rews_type := if rewsVeer then rews_type ++ "+Veer" else rews_type in
  let rews_type := if rewsUpflow then rews_type ++ "+Upflow" else rews_type in
  exponent_type ++ " (" ++ rews_type ++ ")".

(** The node [RotorEquivalentWindSpeed.__init__] builds; the ratio and
    deviation-matrix computations on collaborators that follow are not
    modelled. *)
Definition RotorEquivalentWindSpeed_node (float_str : R -> string)
  (source : node) (rewsVeer rewsUpflow : bool) (rewsExponent : R)
  : result node :=
  WindSpeedBasedCorrection_init
    (RotorEquivalentWindSpeed_label float_str rewsVeer rewsUpflow rewsExponent)
    source.

(** [TurbulenceCorrection.__init__] *)
Definition TurbulenceCorrection_init (df : frame) (source : node)
  (hub_turbulence_column : string) (power_curve : turbulence_power_curve)
  : result (node * frame) :=
  self <- PowerBasedCorrection_init "Turbulence" source (Passed power_curve) ;;
  swsc <- wind_speed_column source ;;
  let calc := {| tpc_powerCurve := power_curve;
                 tpc_ratedPower := ratedPower power_curve;
                 tpc_windSpeedColumn := swsc;
                 tpc_turbulenceColumn := hub_turbulence_column |} in
  PowerBasedCorrection_finalise self df (TurbulencePowerCalculator_power calc).

(** [WebServiceCorrection.__init__]: the call to
    [PowerBasedCorrection.__init__] passes no [power_curve]. *)
Definition WebServiceCorrection_init (df : frame) (web_service : calculator)
  : result (node * frame) :=
  self <- PowerBasedCorrection_init "WebService" (Source_init None)
            (@Missing power_curve) ;;
  PowerBasedCorrection_finalise self df web_service.

(** ** The out-of-range report of [PowerDeviationMatrixCorrection]

    The deviation matrix is an external collaborator; after the power
    column has been computed it answers the fraction queries below. *)
Record deviation_dimension := {
  parameter : string;
  centerOfFirstBin : R;
  centerOfLastBin : R
}.

Record deviation_matrix_stats := {
  dimensions : list deviation_dimension;
  out_of_range_fraction_all : R;
  out_of_range_fraction : string -> R;
  below_fraction : string -> R;
  above_fraction : string -> R
}.

(** The messages of the report, before percentage formatting. *)
Inductive status_message :=
| PdmOutOfRange (percent : R)
| DimensionOutOfRange (param : string) (percent first last : R)
| DimensionBelow (percent : R)
| DimensionAbove (percent : R).

(** [Status.add(message, red=..., orange=...)] *)
Record status_entry := {
  message : status_message;
  red : bool;
  orange : bool
}.

(** [x > y] on floats. *)
Definition gtb (x y : R) : bool := if Rlt_dec y x then true else false.

(** The severity flags [(red, orange)] of a fraction (lines 257-258). *)
Definition severity (fraction : R) : bool * bool :=
  (gtb fraction 0.20, gtb fraction 0.05).

Definition entry_severity (e : status_entry) : bool * bool :=
  (red e, orange e).

(** Lines 255-273 of [PowerDeviationMatrixCorrection.__init__]. *)
Definition PowerDeviationMatrix_report (m : deviation_matrix_stats)
  : list status_entry :=
  let fraction_out_of_range := out_of_range_fraction_all m in
  let orange := gtb fraction_out_of_range 0.05 in
  let red := gtb fraction_out_of_range 0.20 in
  {| message := PdmOutOfRange (out_of_range_fraction_all m * 100);
     red := red; orange := orange |} ::
  flat_map (fun d =>
    [ {| message := DimensionOutOfRange (parameter d)
                      (out_of_range_fraction m (parameter d) * 100)
                      (centerOfFirstBin d) (centerOfLastBin d);
         red := red; orange := orange |};
      {| message := DimensionBelow (below_fraction m (parameter d) * 100);
         red := red; orange := orange |};
      {| message := DimensionAbove (above_fraction m (parameter d) * 100);
         red := red; orange := orange |} ])
    (dimensions m).

(** ** The deviation-matrix calculator and correction

    The power deviation matrix is an external collaborator: its
    dimensions, and [matrix[parameters]], the deviation stored for a
    dictionary of parameter values.  Its out-of-range counters are read
    only by the report above. *)
Record deviation_matrix := {
  matrix_dimensions : list deviation_dimension;
  deviation_at : list (string * R) -> R
}.

(** [parameterColumns[p]] on a dict from parameter names to column names. *)
Fixpoint lookup_str (k : string) (d : list (string * string)) : result string :=
  match d with
  | [] => Err (KeyError k)
  | (k', v) :: d' => if String.eqb k' k then Ok v else lookup_str k d'
  end.

(** The loop of [PowerDeviationMatrixPowerCalculator.power] (lines 58-61)
    filling the [parameters] dict; [parameters[p] = value] is [set_col]. *)
Fixpoint collect_parameters (dims : list deviation_dimension)
  (parameterColumns : list (string * string)) (r : row)
  (parameters : list (string * R)) : result (list (string * R)) :=
  match dims with
  | [] => Ok parameters
  | dimension :: dims' =>
      column <- lookup_str (parameter dimension) parameterColumns ;;
      value <- getcol column r ;;
      collect_parameters dims' parameterColumns r
        (set_col (parameter dimension) value parameters)
  end.

(** [PowerDeviationMatrixPowerCalculator.power] *)
Definition PowerDeviationMatrixPowerCalculator_power (powerCurve : power_curve)
  (powerDeviationMatrix : deviation_matrix) (windSpeedColumn : option string)
  (parameterColumns : list (string * string)) (r : row) : result R :=
  parameters <- collect_parameters (matrix_dimensions powerDeviationMatrix)
                  parameterColumns r [] ;;
  let deviation := deviation_at powerDeviationMatrix parameters in
  ws <- getcol_opt windSpeedColumn r ;;
  Ok (powerCurve ws * (1 + deviation)).

(** ["{0}".format(n)] on a natural number. *)
Definition nat_str (n : nat) : string :=
  NilEmpty.string_of_uint (Nat.to_uint n).

(** The correction label of [PowerDeviationMatrixCorrection]. *)
Definition PowerDeviationMatrix_label (m : deviation_matrix) : string :=
  let dimenionality := nat_str (length (matrix_dimensions m)) ++ "D" in
  dimenionality ++ " Power Deviation Matrix".

(** Lines 243-251 of [PowerDeviationMatrixCorrection.__init__], up to the
    report; resetting the matrix's out-of-range counters is not modelled. *)
Definition PowerDeviationMatrixCorrection_init (df : frame) (source : node)
  (power_deviation_matrix : deviation_matrix)
  (parameter_columns : list (string * string)) (power_curve : power_curve)
  : result (node * frame) :=
  self <- PowerBasedCorrection_init (PowerDeviationMatrix_label power_deviation_matrix)
            source (Passed power_curve) ;;
  swsc <- wind_speed_column source ;;
  PowerBasedCorrection_finalise self df
    (PowerDeviationMatrixPowerCalculator_power power_curve power_deviation_matrix
       swsc parameter_columns).

(** ** Building a chain

    A stage is a correction label and whether it is wind-speed based; the
    stage is built by the matching family constructor. *)
Definition build_stage (source : node) (stage : string * bool) : result node :=
  let '(label, ws) := stage in
  if ws then WindSpeedBasedCorrection_init label source
  else PowerBasedCorrection_init label source (@Passed unit tt).

Fixpoint build_chain (source : node) (stages : list (string * bool))
  : result node :=
  match stages with
  | [] => Ok source
  | s :: rest => n <- build_stage source s ;; build_chain n rest
  end.

(** The provenance name the spec describes: the earlier labels joined by
    [", "], the last one joined by [" & "]. *)
Definition provenance (first : string) (later : list string) : string :=
  match later with
  | [] => first
  | _ => String.concat ", " (first :: removelast later) ++ " & " ++ last later ""
  end.

(** The [source] links of a node: how many corrections lie above the
    [Source] it ends in, and that [Source]. *)
Fixpoint chain_depth (n : node) : nat :=
  match n with
  | SourceObj _ _ => O
  | CorrectionObj _ _ _ s _ _ => S (chain_depth s)
  end.

Fixpoint chain_root (n : node) : node :=
  match n with
  | SourceObj _ _ => n
  | CorrectionObj _ _ _ s _ _ => chain_root s
  end.

(** ** Lemmas on the naming rule *)

Lemma replace_sep_cons : forall a s1,
  replace_sep (String a s1) =
  match s1 with
  | String b (String c rest) =>
      if Ascii.eqb a " " && Ascii.eqb b "&" && Ascii.eqb c " "
      then ", " ++ replace_sep rest
      else String a (replace_sep s1)
  | _ => String a (replace_sep s1)
  end.
Proof. reflexivity. Qed.

Lemma replace_sep_no_amp : forall s,
  has_char "&" s = false -> replace_sep s = s.
Proof.
  induction s as [|a s1 IH]; intros H; [reflexivity|].
  cbn [has_char] in H. apply orb_false_iff in H as [_ Hs].
  specialize (IH Hs). rewrite replace_sep_cons.
  destruct s1 as [|b [|c rest]]; try (rewrite IH; reflexivity).
  cbn [has_char] in Hs. apply orb_false_iff in Hs as [Hb _].
  rewrite Hb, andb_false_r, IH. reflexivity.
Qed.

Lemma calculate_name_raw : forall P L,
  raw P = true -> calculate_name P L = Ok L.
Proof. intros P L H. unfold calculate_name. now rewrite H. Qed.

Lemma calculate_name_composite : forall P L n,
  correction_name P = Some n ->
  calculate_name P L = Ok (replace_sep n ++ " & " ++ L).
Proof.
  intros [c p | nm w pb s ws pc] L n H; simpl in H; [discriminate|].
  injection H as <-. unfold calculate_name; simpl.
  destruct (has_char "&" nm) eqn:E; [reflexivity|].
  now rewrite (replace_sep_no_amp nm E).
Qed.

(** ** C1: chain validity *)

(** C1. Building a correction on a parent [P] succeeds exactly when
    [P.wind_speed_based] is true; when it is false, construction raises an
    [Exception] whose message is ["<label> cannot follow <P's composite
    name>"], and no correction object is produced. *)
Theorem Correction_init_succeeds_iff_wind_speed_based :
  forall (label : string) (P : node) (w : bool),
    ((exists C, Correction_init label P w = Ok C) <->
     wind_speed_based P = true) /\
    (wind_speed_based P = false ->
     exists n, correction_name P = Some n /\
       Correction_init label P w =
         Err (Exception (label ++ " cannot follow " ++ n))).
Proof.
  intros label [c p | nm w0 pb s ws pc] w;
    unfold Correction_init, can_chain, calculate_name, get_correction_name;
    simpl.
  - split; [split; [reflexivity | intros _; eexists; reflexivity] | discriminate].
  - destruct w0; simpl.
    + split; [split; [reflexivity | intros _; eexists; reflexivity] | discriminate].
    + split.
      * split; [intros [C HC]; discriminate | discriminate].
      * intros _. exists nm. split; reflexivity.
Qed.

Lemma Correction_init_succeeds_iff_wind_speed_based_witness :
  wind_speed_based (CorrectionObj "Turbulence" false true
                      (Source_init (Some "WS")) None (Some (Some "Turbulence Power")))
    = false /\
  exists n, correction_name (CorrectionObj "Turbulence" false true
                      (Source_init (Some "WS")) None (Some (Some "Turbulence Power")))
              = Some n /\
    Correction_init "Density" (CorrectionObj "Turbulence" false true
                      (Source_init (Some "WS")) None (Some (Some "Turbulence Power")))
      true = Err (Exception ("Density cannot follow " ++ n)).
Proof.
  split; [reflexivity|].
  apply (proj2 (Correction_init_succeeds_iff_wind_speed_based "Density"
    (CorrectionObj "Turbulence" false true (Source_init (Some "WS")) None
       (Some (Some "Turbulence Power"))) true)).
  reflexivity.
Defined.

(** ** C10: the error path of [Correction.__init__] is total *)

(** C10. When [can_chain] refuses a parent, the parent is not a raw
    [Source] (a [Source] is always wind-speed based), it carries a
    [correction_name], and the error message is built from it without an
    [AttributeError]. *)
Theorem can_chain_refusal_parent_is_correction :
  forall (P : node) (label : string) (w : bool),
    can_chain P = false ->
    raw P = false /\
    exists n, correction_name P = Some n /\
      Correction_init label P w =
        Err (Exception (label ++ " cannot follow " ++ n)).
Proof.
  intros [c p | nm w0 pb s ws pc] label w H; simpl in H; [discriminate|].
  split; [reflexivity|]. exists nm. split; [reflexivity|].
  unfold Correction_init. rewrite H. reflexivity.
Qed.

Lemma can_chain_refusal_parent_is_correction_witness :
  exists P, build_chain (Source_init (Some "WS"))
              [("Density", true); ("Turbulence", false)] = Ok P /\
    can_chain P = false /\
    raw P = false /\
    exists n, correction_name P = Some n /\
      Correction_init "PowerDeviationMatrix" P false =
        Err (Exception ("PowerDeviationMatrix cannot follow " ++ n)).
Proof.
  eexists. split; [reflexivity|]. split; [reflexivity|].
  apply can_chain_refusal_parent_is_correction. reflexivity.
Defined.

(** ** C2: name composition *)

(** C2 (counterexample). The spec's chain [Source -> Density -> Turbulence
    -> PowerDeviationMatrix] cannot be built: [Turbulence] is power based,
    so the fourth stage is refused and yields no composite name. *)
Lemma name_composition_fourth_stage_refused :
  build_chain (Source_init (Some "WS"))
    [("Density", true); ("Turbulence", false); ("PowerDeviationMatrix", false)]
  = Err (Exception "PowerDeviationMatrix cannot follow Density & Turbulence").
Proof. reflexivity. Qed.

(** C2 (amended). [calculate_name P L] is [L] on the raw [Source], and
    otherwise [P]'s composite name with every [" & "] replaced by [", "],
    followed by [" & "] and [L].  [Source -> Density -> Turbulence] is
    named ["Density & Turbulence"]; [calculate_name] on that node and
    ["PowerDeviationMatrix"] gives ["Density, Turbulence &
    PowerDeviationMatrix"], although a stage on it is refused; the
    three-label name is reached on a wind-speed-based second stage. *)
Theorem calculate_name_composition :
  (forall P L, raw P = true -> calculate_name P L = Ok L) /\
  (forall P L n, correction_name P = Some n ->
     calculate_name P L = Ok (replace_sep n ++ " & " ++ L)) /\
  (exists T, build_chain (Source_init (Some "WS"))
               [("Density", true); ("Turbulence", false)] = Ok T /\
     correction_name T = Some "Density & Turbulence" /\
     calculate_name T "PowerDeviationMatrix"
       = Ok "Density, Turbulence & PowerDeviationMatrix") /\
  res_map correction_name
    (build_chain (Source_init (Some "WS"))
       [("Density", true); ("REWS (Speed)", true); ("PowerDeviationMatrix", false)])
  = Ok (Some "Density, REWS (Speed) & PowerDeviationMatrix").
Proof.
  split; [exact calculate_name_raw|].
  split; [exact calculate_name_composite|].
  split; [eexists; split; [reflexivity | split; reflexivity] | reflexivity].
Qed.

Lemma calculate_name_composition_witness :
  calculate_name (Source_init (Some "WS")) "Density" = Ok "Density" /\
  calculate_name (CorrectionObj "Density & REWS (Speed)" true false
                    (Source_init (Some "WS")) (Some "Density & REWS (Speed) Wind Speed")
                    None) "Turbulence"
    = Ok (replace_sep "Density & REWS (Speed)" ++ " & " ++ "Turbulence").
Proof.
  split.
  - apply (proj1 calculate_name_composition). reflexivity.
  - apply (proj1 (proj2 calculate_name_composition)). reflexivity.
Defined.

(** ** C5: [WebServiceCorrection] *)

(** C5 (evaluation at the failing input). Constructing a
    [WebServiceCorrection] always raises [TypeError]: the call to
    [PowerBasedCorrection.__init__] leaves out its [power_curve] argument,
    so no column is written. *)
Theorem WebServiceCorrection_init_type_error :
  forall (df : frame) (web_service : calculator),
    WebServiceCorrection_init df web_service =
      Err (TypeError "__init__() takes exactly 4 arguments (3 given)").
Proof. reflexivity. Qed.

(** ** Lemmas on composite names of chains *)

Lemma string_app_assoc : forall x y z : string,
  (x ++ y) ++ z = x ++ (y ++ z).
Proof. induction x as [|a x IH]; intros; simpl; [|rewrite IH]; reflexivity. Qed.

Lemma has_char_app : forall c x y,
  has_char c (x ++ y) = has_char c x || has_char c y.
Proof.
  induction x as [|a x IH]; intros y; simpl; [reflexivity|].
  now rewrite IH, orb_assoc.
Qed.

Lemma replace_sep_skip : forall a b t,
  Ascii.eqb b "&" = false ->
  replace_sep (String a (String b t)) = String a (replace_sep (String b t)).
Proof.
  intros a b t Hb. rewrite replace_sep_cons.
  destruct t; [reflexivity|]. now rewrite Hb, andb_false_r.
Qed.

Lemma replace_sep_app_sep : forall x y,
  has_char "&" x = false ->
  replace_sep (x ++ " & " ++ y) = x ++ ", " ++ replace_sep y.
Proof.
  induction x as [|a x IH]; intros y Hx; [reflexivity|].
  cbn [has_char] in Hx. apply orb_false_iff in Hx as [_ Hx].
  destruct x as [|b x]; cbn [String.append].
  - rewrite replace_sep_skip by reflexivity. f_equal; exact (IH y Hx).
  - rewrite replace_sep_skip.
    + f_equal; exact (IH y Hx).
    + cbn [has_char] in Hx. now apply orb_false_iff in Hx as [Hb _].
Qed.

Definition no_amp (s : string) : Prop := has_char "&" s = false.

Lemma concat_no_amp : forall xs,
  Forall no_amp xs -> no_amp (String.concat ", " xs).
Proof.
  induction xs as [|x xs IH]; intros H; [reflexivity|].
  inversion H as [|? ? Hx Hxs]; subst.
  destruct xs as [|y ys]; [exact Hx|].
  unfold no_amp in *. cbn [String.concat] in *.
  rewrite !has_char_app, Hx. simpl. apply IH, Hxs.
Qed.

Lemma concat_snoc : forall x xs y,
  String.concat ", " ((x :: xs) ++ [y])%list = String.concat ", " (x :: xs) ++ ", " ++ y.
Proof.
  intros x xs. revert x.
  induction xs as [|x' xs IH]; intros x y; [reflexivity|].
  change ((x :: x' :: xs) ++ [y])%list with (x :: ((x' :: xs) ++ [y]))%list.
  transitivity (x ++ ", " ++ String.concat ", " ((x' :: xs) ++ [y])%list).
  { destruct ((x' :: xs) ++ [y])%list eqn:E; [destruct xs; discriminate|].
    reflexivity. }
  rewrite IH.
  change (String.concat ", " (x :: x' :: xs))
    with (x ++ ", " ++ String.concat ", " (x' :: xs)).
  now rewrite !string_app_assoc.
Qed.

Lemma Forall_last : forall (P : string -> Prop) l d,
  Forall P l -> P d -> P (last l d).
Proof.
  intros P l d Hl Hd. induction Hl as [|x l Hx Hl IH]; [exact Hd|].
  destruct l; [exact Hx | exact IH].
Qed.

Lemma provenance_cons : forall first later,
  later <> [] ->
  provenance first later =
    String.concat ", " (first :: removelast later) ++ " & " ++ last later "".
Proof. intros first [|x l] H; [contradiction|reflexivity]. Qed.

Lemma provenance_step : forall l0 prev l,
  no_amp l0 -> Forall no_amp prev ->
  replace_sep (provenance l0 prev) ++ " & " ++ l = provenance l0 (prev ++ [l])%list.
Proof.
  intros l0 prev l H0 Hp.
  rewrite (provenance_cons l0 (prev ++ [l])%list) by (destruct prev; discriminate).
  rewrite removelast_last, last_last.
  destruct prev as [|p ps].
  - simpl. now rewrite replace_sep_no_amp.
  - rewrite provenance_cons by discriminate.
    rewrite replace_sep_app_sep.
    2:{ apply concat_no_amp. constructor; [exact H0|].
        apply Forall_forall. intros x Hx.
        apply (proj1 (Forall_forall _ _) Hp).
        rewrite (app_removelast_last "" (l := p :: ps)) by discriminate.
        apply in_or_app. now left. }
    rewrite (replace_sep_no_amp (last (p :: ps) "")) by
      (apply Forall_last; [exact Hp | reflexivity]).
    assert (Hr : (l0 :: p :: ps) =
                 ((l0 :: removelast (p :: ps)) ++ [last (p :: ps) ""])%list).
    { change (l0 :: p :: ps = l0 :: ((removelast (p :: ps)) ++ [last (p :: ps) ""])%list).
      f_equal. apply app_removelast_last. discriminate. }
    rewrite Hr, concat_snoc, !string_app_assoc. reflexivity.
Qed.

Lemma build_stage_name : forall T s T',
  build_stage T s = Ok T' ->
  exists n, calculate_name T (fst s) = Ok n /\ correction_name T' = Some n.
Proof.
  intros T [l w] T' H. unfold build_stage in H. revert H.
  destruct w;
    unfold WindSpeedBasedCorrection_init, PowerBasedCorrection_init, Correction_init.
  all: destruct (negb (can_chain T)); [destruct (get_correction_name T); discriminate|].
  all: destruct (calculate_name T l) as [n|e] eqn:E; [|discriminate].
  all: cbn; intros H; injection H as <-; exists n; split; [exact E|reflexivity].
Qed.

Lemma build_chain_provenance : forall stages T C l0 prev,
  correction_name T = Some (provenance l0 prev) ->
  no_amp l0 -> Forall no_amp prev ->
  Forall (fun s => no_amp (fst s)) stages ->
  build_chain T stages = Ok C ->
  correction_name C = Some (provenance l0 (prev ++ map fst stages)%list).
Proof.
  induction stages as [|[l w] rest IH]; intros T C l0 prev HT H0 Hp Hs Hb.
  - simpl in Hb. injection Hb as <-. now rewrite app_nil_r.
  - cbn [build_chain] in Hb. revert Hb.
    destruct (build_stage T (l, w)) as [T'|e] eqn:Es; simpl; intros Hb;
      [|discriminate].
    apply build_stage_name in Es as [n [Hn HT']]. simpl in Hn.
    rewrite (calculate_name_composite T l _ HT) in Hn. injection Hn as <-.
    inversion Hs as [|? ? Hl Hrest]; subst.
    assert (HT2 : correction_name T' = Some (provenance l0 (prev ++ [l])%list)).
    { rewrite <- (provenance_step l0 prev l H0 Hp). exact HT'. }
    cbn [map fst].
    replace (prev ++ l :: map fst rest)%list
      with ((prev ++ [l]) ++ map fst rest)%list
      by (now rewrite <- app_assoc).
    apply (IH T' C l0 (prev ++ [l])%list HT2 H0); [|exact Hrest|exact Hb].
    apply Forall_app. split; [exact Hp|]. constructor; [exact Hl|constructor].
Qed.

Fixpoint count_char (c : ascii) (s : string) : nat :=
  match s with
  | EmptyString => O
  | String a s' => ((if Ascii.eqb a c then 1 else 0) + count_char c s')%nat
  end.

Lemma count_char_app : forall c x y,
  count_char c (x ++ y) = (count_char c x + count_char c y)%nat.
Proof. induction x as [|a x IH]; intros y; simpl; [|rewrite IH]; lia. Qed.

Lemma count_char_absent : forall c s, has_char c s = false -> count_char c s = O.
Proof.
  induction s as [|a s IH]; intros H; simpl in *; [reflexivity|].
  apply orb_false_iff in H as [Ha Hs]. rewrite Ha. simpl. now apply IH.
Qed.

Definition tail_string (s : string) : string :=
  match s with EmptyString => EmptyString | String _ s' => s' end.

(** Every occurrence of [" & "] has its ['&'] on the next position. *)
Lemma count_sep_le_tail : forall s,
  (count_sep s <= count_char "&" (tail_string s))%nat.
Proof.
  induction s as [|a s1 IH]; cbn [count_sep count_char tail_string]; [lia|].
  destruct s1 as [|b s2]; cbn [starts_with count_char tail_string] in *.
  - destruct (Ascii.eqb " " a); cbn [andb count_sep]; lia.
  - rewrite (Ascii.eqb_sym "&" b).
    destruct (Ascii.eqb " " a), (Ascii.eqb b "&"); cbn [andb];
      repeat match goal with |- context [if ?c then _ else _] => destruct c end;
      lia.
Qed.

Lemma count_sep_le_amp : forall s, (count_sep s <= count_char "&" s)%nat.
Proof.
  intros s. pose proof (count_sep_le_tail s).
  destruct s as [|a s]; simpl in *; lia.
Qed.

Lemma provenance_amp_count : forall l0 later,
  no_amp l0 -> Forall no_amp later ->
  (count_char "&" (provenance l0 later) <= 1)%nat.
Proof.
  intros l0 later H0 Hl. destruct later as [|x xs].
  - rewrite count_char_absent by exact H0. lia.
  - rewrite provenance_cons by discriminate.
    rewrite !count_char_app.
    rewrite (count_char_absent _ (String.concat _ _)).
    2:{ apply concat_no_amp. constructor; [exact H0|].
        apply Forall_forall. intros y Hy.
        apply (proj1 (Forall_forall _ _) Hl).
        rewrite (app_removelast_last "" (l := x :: xs)) by discriminate.
        apply in_or_app. now left. }
    rewrite (count_char_absent _ (last _ _))
      by (apply Forall_last; [exact Hl | reflexivity]).
    simpl. lia.
Qed.

(** ** C3: composite names keep a single trailing [" & "] *)

(** C3. For a chain of any length built from a [Source] with correction
    labels free of ['&'] (as every label of the concrete corrections is),
    the composite name is the earlier labels joined by [", "] and the
    last label joined by [" & "]; it contains at most one [" & "]. *)
Theorem chain_name_single_separator :
  forall (col : option string) (pc : option (option string))
         (l0 : string) (w0 : bool) (stages : list (string * bool)) (C : node),
    no_amp l0 ->
    Forall (fun s => no_amp (fst s)) stages ->
    build_chain (SourceObj col pc) ((l0, w0) :: stages) = Ok C ->
    exists name, correction_name C = Some name /\
      name = provenance l0 (map fst stages) /\
      (count_sep name <= 1)%nat.
Proof.
  intros col pc l0 w0 stages C H0 Hs Hb. cbn [build_chain] in Hb. revert Hb.
  destruct (build_stage (SourceObj col pc) (l0, w0)) as [T|e] eqn:Es;
    simpl; intros Hb; [|discriminate].
  apply build_stage_name in Es as [n [Hn HT]]. simpl in Hn.
  injection Hn as <-.
  assert (Hl : Forall no_amp (map fst stages)).
  { apply Forall_map. exact Hs. }
  exists (provenance l0 (map fst stages)). split; [|split; [reflexivity|]].
  - exact (build_chain_provenance stages T C l0 [] HT H0 (Forall_nil _) Hs Hb).
  - eapply Nat.le_trans; [apply count_sep_le_amp|].
    now apply provenance_amp_count.
Qed.

Lemma chain_name_single_separator_witness :
  exists C, build_chain (Source_init (Some "WS"))
              [("Density", true); ("REWS (Speed)", true);
               ("RAWS (Speed+Veer)", true); ("Turbulence", false)] = Ok C /\
    exists name, correction_name C = Some name /\
      name = provenance "Density"
               ["REWS (Speed)"; "RAWS (Speed+Veer)"; "Turbulence"] /\
      (count_sep name <= 1)%nat.
Proof.
  eexists. split; [reflexivity|].
  apply (chain_name_single_separator (Some "WS") None "Density" true
           [("REWS (Speed)", true); ("RAWS (Speed+Veer)", true);
            ("Turbulence", false)]).
  - reflexivity.
  - repeat constructor.
  - reflexivity.
Defined.

(** ** Lemmas on column writes *)

Lemma getcol_set_col_same {V} : forall c (v : V) r, getcol c (set_col c v r) = Ok v.
Proof.
  induction r as [|[k w] r IH]; simpl.
  - now rewrite String.eqb_refl.
  - destruct (String.eqb k c) eqn:E; simpl; rewrite E; [reflexivity | exact IH].
Qed.

Lemma getcol_set_col_other {V} : forall c c' (v : V) r,
  c' <> c -> getcol c' (set_col c v r) = getcol c' r.
Proof.
  intros c c' v r Hne. induction r as [|[k w] r IH]; simpl.
  - destruct (String.eqb c c') eqn:E; [|reflexivity].
    apply String.eqb_eq in E. congruence.
  - destruct (String.eqb k c) eqn:E; simpl.
    + apply String.eqb_eq in E. subst k.
      destruct (String.eqb c c') eqn:E'; [apply String.eqb_eq in E'; congruence|].
      reflexivity.
    + destruct (String.eqb k c'); [reflexivity | exact IH].
Qed.

Lemma apply_assign_rows {V} : forall c (f : rowT V -> result V) df df',
  apply_assign c f df = Ok df' ->
  Forall2 (fun r r' => exists v, f r = Ok v /\ r' = set_col c v r) df df'.
Proof.
  intros c f. induction df as [|r df IH]; intros df' H.
  - unfold apply_assign in H. simpl in H. injection H as <-. constructor.
  - unfold apply_assign in H. simpl in H.
    destruct (f r) as [v|e] eqn:Hf; [|discriminate]. simpl in H.
    destruct (apply_rows f df) as [vs|e] eqn:E; [|discriminate].
    simpl in H. injection H as <-. constructor.
    + exists v. split; [exact Hf | reflexivity].
    + apply IH. unfold apply_assign. now rewrite E.
Qed.

Lemma apply_assign_total {V} : forall c (f : rowT V -> result V) df,
  (exists df', apply_assign c f df = Ok df') <->
  Forall (fun r => exists v, f r = Ok v) df.
Proof.
  intros c f df. split.
  - intros [df' H]. apply apply_assign_rows in H.
    induction H as [|r r' df df' [v [Hv _]] _ IH]; constructor; eauto.
  - unfold apply_assign. induction 1 as [|r df [v Hv] _ [df' IH]]; simpl.
    + eexists. reflexivity.
    + rewrite Hv. simpl. destruct (apply_rows f df); [|discriminate].
      eexists. reflexivity.
Qed.

Lemma Forall2_compose {A B C} (R1 : A -> B -> Prop) (R2 : B -> C -> Prop) :
  forall xs ys zs, Forall2 R1 xs ys -> Forall2 R2 ys zs ->
  Forall2 (fun x z => exists y, R1 x y /\ R2 y z) xs zs.
Proof.
  intros xs ys zs H1. revert zs.
  induction H1 as [|x y xs ys Hxy _ IH]; intros zs H2; inversion H2; subst;
    constructor; eauto.
Qed.

Lemma WindSpeedBasedCorrection_init_shape : forall l P N,
  WindSpeedBasedCorrection_init l P = Ok N ->
  exists name, calculate_name P l = Ok name /\
    N = CorrectionObj name true false P (Some (name ++ " Wind Speed")) None.
Proof.
  intros l P N. unfold WindSpeedBasedCorrection_init, Correction_init.
  destruct (negb (can_chain P)); [destruct (get_correction_name P); discriminate|].
  destruct (calculate_name P l) as [name|e] eqn:E; [|discriminate].
  cbn. intros H. injection H as <-. exists name. split; reflexivity.
Qed.

(** [WindSpeedBasedCorrection.finalise] keeps the name and every other
    column. *)
Lemma WindSpeedBasedCorrection_finalise_keeps {V} :
  forall name w pb s wsc pc0 (df : frameT V) pc N df',
  WindSpeedBasedCorrection_finalise (CorrectionObj name w pb s (Some wsc) pc0) df pc
    = Ok (N, df') ->
  correction_name N = Some name /\
  Forall2 (fun r r' => forall k, k <> name ++ " Power" -> getcol k r' = getcol k r)
    df df'.
Proof.
  intros name w pb s wsc pc0 df pc N df' H.
  unfold WindSpeedBasedCorrection_finalise in H. cbn in H.
  destruct pc as [c|].
  - destruct (apply_assign (name ++ " Power") _ df) as [df1|e] eqn:E;
      [|discriminate].
    cbn in H. injection H as <- <-. split; [reflexivity|].
    apply apply_assign_rows in E.
    eapply Forall2_impl; [|exact E].
    intros r r' [v [_ ->]] k Hk. now apply getcol_set_col_other.
  - injection H as <- <-. split; [reflexivity|].
    induction df; constructor; auto.
Qed.

(** ** C8: [finalise] of [Source] and of wind-speed-based corrections *)

(** C8. With a power curve, [Source.finalise] names the power column
    ["<wind_speed_column> Power"] and [WindSpeedBasedCorrection.finalise]
    names it ["<correction_name> Power"]; the column is written in every
    row with the curve applied to that row's wind speed, and the call
    succeeds exactly when every row has the wind-speed column.  Without a
    power curve, [power_column] is [None] and the frame is unchanged. *)
Theorem finalise_power_column :
  (forall col pc0 df (c : power_curve) N df',
     Source_finalise (SourceObj col pc0) df (Some c) = Ok (N, df') ->
     power_column N = Some (Some (fmt_opt col ++ " Power")) /\
     Forall2 (fun r r' => exists v, getcol_opt col r = Ok v /\
                r' = set_col (fmt_opt col ++ " Power") (c v) r) df df') /\
  (forall col pc0 df (c : power_curve),
     (exists res, Source_finalise (SourceObj col pc0) df (Some c) = Ok res) <->
     Forall (fun r => exists v, getcol_opt col r = Ok v) df) /\
  (forall col pc0 df,
     Source_finalise (SourceObj col pc0) df None = Ok (SourceObj col (Some None), df)) /\
  (forall name w pb s wsc pc0 df (c : power_curve) N df',
     WindSpeedBasedCorrection_finalise
       (CorrectionObj name w pb s (Some wsc) pc0) df (Some c) = Ok (N, df') ->
     power_column N = Some (Some (name ++ " Power")) /\
     Forall2 (fun r r' => exists v, getcol wsc r = Ok v /\
                r' = set_col (name ++ " Power") (c v) r) df df') /\
  (forall name w pb s wsc pc0 df (c : power_curve),
     (exists res, WindSpeedBasedCorrection_finalise
                    (CorrectionObj name w pb s (Some wsc) pc0) df (Some c) = Ok res) <->
     Forall (fun r => exists v, getcol wsc r = Ok v) df) /\
  (forall name w pb s wsc pc0 (df : frame),
     WindSpeedBasedCorrection_finalise (CorrectionObj name w pb s (Some wsc) pc0) df None
     = Ok (CorrectionObj name w pb s (Some wsc) (Some None), df)).
Proof.
  assert (Hrows : forall pcol col (c : power_curve) (df : frame) df',
    apply_assign pcol (PowerCalculator_power c col) df = Ok df' ->
    Forall2 (fun r r' => exists v, getcol_opt col r = Ok v /\
               r' = set_col pcol (c v) r) df df').
  { intros pcol col c df df' H. apply apply_assign_rows in H.
    eapply Forall2_impl; [|exact H].
    intros r r' [v [Hv ->]]. unfold PowerCalculator_power in Hv.
    destruct (getcol_opt col r) as [ws|e]; [|discriminate].
    injection Hv as <-. exists ws. split; reflexivity. }
  assert (Htotal : forall pcol col (c : power_curve) (df : frame),
    (exists df', apply_assign pcol (PowerCalculator_power c col) df = Ok df') <->
    Forall (fun r => exists v, getcol_opt col r = Ok v) df).
  { intros pcol col c df. rewrite apply_assign_total.
    split; apply Forall_impl; intros r [v Hv];
      unfold PowerCalculator_power in *.
    - destruct (getcol_opt col r) as [ws|e]; [eauto | discriminate].
    - rewrite Hv. eexists. reflexivity. }
  split; [|split; [|split; [|split; [|split]]]].
  - intros col pc0 df c N df' H. unfold Source_finalise in H. cbn in H.
    destruct (apply_assign _ _ df) as [df1|e] eqn:E; [|discriminate].
    cbn in H. injection H as <- <-. split; [reflexivity|]. now apply Hrows.
  - intros col pc0 df c. unfold Source_finalise. cbn.
    rewrite <- (Htotal (fmt_opt col ++ " Power")).
    split; intros [x Hx].
    + destruct (apply_assign _ _ df) as [df1|e] eqn:E;
        [exists df1; exact E | discriminate].
    + rewrite Hx. eexists. reflexivity.
  - reflexivity.
  - intros name w pb s wsc pc0 df c N df' H.
    unfold WindSpeedBasedCorrection_finalise in H. cbn in H.
    destruct (apply_assign _ _ df) as [df1|e] eqn:E; [|discriminate].
    cbn in H. injection H as <- <-. split; [reflexivity|].
    exact (Hrows _ (Some wsc) c df df1 E).
  - intros name w pb s wsc pc0 df c.
    unfold WindSpeedBasedCorrection_finalise. cbn.
    rewrite <- (Htotal (name ++ " Power") (Some wsc)).
    split; intros [x Hx].
    + destruct (apply_assign _ _ df) as [df1|e] eqn:E;
        [exists df1; exact E | discriminate].
    + rewrite Hx. eexists. reflexivity.
  - reflexivity.
Qed.

Lemma finalise_power_column_witness :
  exists N df',
    Source_finalise (Source_init (Some "WS")) [[("WS", 8)]] (Some (fun ws => 2 * ws))
      = Ok (N, df') /\
    power_column N = Some (Some "WS Power") /\
    Forall2 (fun r r' => exists v, getcol_opt (Some "WS") r = Ok v /\
               r' = set_col "WS Power" (2 * v) r) [[("WS", 8)]] df'.
Proof.
  do 2 eexists. split; [reflexivity|].
  apply (proj1 finalise_power_column (Some "WS") None [[("WS", 8)]]
           (fun ws => 2 * ws)).
  reflexivity.
Defined.

(** ** C4: severity of the deviation-matrix report *)

(** A matrix with two dimensions: 10% of the values out of range overall,
    half of them for the wind-speed dimension. *)
Definition pdm_sample : deviation_matrix_stats := {|
  dimensions := [ {| parameter := "Wind Speed"; centerOfFirstBin := 4;
                     centerOfLastBin := 20 |};
                  {| parameter := "Turbulence"; centerOfFirstBin := 0.05;
                     centerOfLastBin := 0.25 |} ];
  out_of_range_fraction_all := 0.1;
  out_of_range_fraction := fun p => if String.eqb p "Wind Speed" then 0.5 else 0;
  below_fraction := fun _ => 0;
  above_fraction := fun p => if String.eqb p "Wind Speed" then 0.5 else 0
|}.

(** C4 (counterexample). The per-dimension line of the ["Wind Speed"]
    dimension, whose own out-of-range fraction is 0.5 (critical), is
    reported with the warning flags of the overall fraction 0.1. *)
Lemma pdm_dimension_severity_from_overall :
  ~ (forall m d, In d (dimensions m) ->
       exists e, In e (PowerDeviationMatrix_report m) /\
         message e = DimensionOutOfRange (parameter d)
                       (out_of_range_fraction m (parameter d) * 100)
                       (centerOfFirstBin d) (centerOfLastBin d) /\
         entry_severity e = severity (out_of_range_fraction m (parameter d))).
Proof.
  intros H.
  destruct (H pdm_sample
              {| parameter := "Wind Speed"; centerOfFirstBin := 4;
                 centerOfLastBin := 20 |} (or_introl eq_refl))
    as [e [Hin [Hm Hs]]].
  cbn in Hin.
  destruct Hin as [<-|[<-|[<-|[<-|[<-|[<-|[<-|[]]]]]]]]; cbn in Hm;
    try discriminate; try (injection Hm; intros; discriminate).
  cbn in Hs. unfold severity, gtb in Hs.
  repeat match type of Hs with context [Rlt_dec ?a ?b] =>
    destruct (Rlt_dec a b); try lra end.
  discriminate.
Qed.

(** C4 (amended). The flags are computed once, from the overall
    out-of-range fraction ([red] above 0.20, [orange] above 0.05), and
    every line of the report (the overall line and, for each dimension,
    its out-of-range, below and above lines) carries those flags; the
    thresholds classify 0.05 as informational, 0.0501 and 0.20 as warning
    and 0.2001 as critical. *)
Theorem pdm_report_severity_overall :
  (forall m e, In e (PowerDeviationMatrix_report m) ->
     entry_severity e = severity (out_of_range_fraction_all m)) /\
  severity 0.05 = (false, false) /\
  severity 0.0501 = (false, true) /\
  severity 0.20 = (false, true) /\
  severity 0.2001 = (true, true).
Proof.
  split.
  - intros m e H. unfold PowerDeviationMatrix_report in H.
    destruct H as [<-|H]; [reflexivity|].
    apply in_flat_map in H as [d [_ Hd]].
    destruct Hd as [<-|[<-|[<-|[]]]]; reflexivity.
  - unfold severity, gtb.
    repeat split;
      repeat match goal with |- context [Rlt_dec ?a ?b] =>
        destruct (Rlt_dec a b); try lra end; reflexivity.
Qed.

Lemma pdm_report_severity_overall_witness :
  In {| message := DimensionOutOfRange "Wind Speed" (0.5 * 100) 4 20;
        red := gtb 0.1 0.20; orange := gtb 0.1 0.05 |}
     (PowerDeviationMatrix_report pdm_sample) /\
  entry_severity {| message := DimensionOutOfRange "Wind Speed" (0.5 * 100) 4 20;
                    red := gtb 0.1 0.20; orange := gtb 0.1 0.05 |}
  = severity (out_of_range_fraction_all pdm_sample).
Proof.
  assert (Hin : In {| message := DimensionOutOfRange "Wind Speed" (0.5 * 100) 4 20;
                      red := gtb 0.1 0.20; orange := gtb 0.1 0.05 |}
                   (PowerDeviationMatrix_report pdm_sample))
    by (right; left; reflexivity).
  split; [exact Hin|].
  exact (proj1 pdm_report_severity_overall pdm_sample _ Hin).
Defined.

(** ** C7: the rated power in [TurbulenceCorrection]

    The amended statement, [turbulence_power_ignores_rated_power], is
    proved with the power-based corrections below. *)

(** C7 (counterexample). No pair of rated powers changes the written
    frame: with every other input held equal, [TurbulenceCorrection]
    produces the same result for any two values of [ratedPower]. *)
Lemma turbulence_rated_power_never_observed :
  ~ (exists (df : frame) (P : node) (ti : string) (tp : R -> R -> R) (r1 r2 : R),
       res_map snd (TurbulenceCorrection_init df P ti
                      {| turbulence_power := tp; ratedPower := r1 |}) <>
       res_map snd (TurbulenceCorrection_init df P ti
                      {| turbulence_power := tp; ratedPower := r2 |})).
Proof.
  intros [df [P [ti [tp [r1 [r2 H]]]]]]. apply H. reflexivity.
Qed.

(** ** C9: the label of [RotorEquivalentWindSpeed] *)

Lemma starts_with_app : forall p z, starts_with p (p ++ z) = true.
Proof.
  induction p as [|a p IH]; intros z; [reflexivity|].
  cbn. now rewrite Ascii.eqb_refl, IH.
Qed.

Lemma contains_app_r : forall p x y,
  contains p y = true -> contains p (x ++ y) = true.
Proof.
  induction x as [|a x IH]; intros y H; [exact H|].
  cbn [String.append contains]. rewrite (IH y H). apply orb_true_r.
Qed.

Lemma contains_prefix : forall p z, contains p (p ++ z) = true.
Proof.
  intros p z. destruct (p ++ z) eqn:E;
    cbn [contains]; rewrite <- E, starts_with_app; reflexivity.
Qed.

(** The [rews_type] part of the label. *)
Definition rews_type_of (rewsVeer rewsUpflow : bool) : string :=
  let t := if rewsVeer then "Speed" ++ "+Veer" else "Speed" in
  if rewsUpflow then t ++ "+Upflow" else t.

(** C9. Exponent 3 labels the correction ["REWS (...)"], exponent 2
    ["RAWS (...)"], any other exponent [v] ["REWS-Exponent=<str(v)> (...)"];
    the veer flag puts ["+Veer"] and the upflow flag ["+Upflow"] in the
    label. *)
Theorem RotorEquivalentWindSpeed_label_cases :
  forall (float_str : R -> string) (rewsVeer rewsUpflow : bool) (e : R),
    let label := RotorEquivalentWindSpeed_label float_str rewsVeer rewsUpflow e in
    (e = 3 -> label = "REWS (" ++ rews_type_of rewsVeer rewsUpflow ++ ")") /\
    (e = 2 -> label = "RAWS (" ++ rews_type_of rewsVeer rewsUpflow ++ ")") /\
    (e <> 3 -> e <> 2 ->
       label = "REWS-Exponent=" ++ float_str e ++ " ("
                 ++ rews_type_of rewsVeer rewsUpflow ++ ")") /\
    (rewsVeer = true -> contains "+Veer" label = true) /\
    (rewsUpflow = true -> contains "+Upflow" label = true).
Proof.
  intros float_str rewsVeer rewsUpflow e label. unfold label.
  unfold RotorEquivalentWindSpeed_label.
  set (t := (if rewsUpflow then
               (if rewsVeer then "Speed" ++ "+Veer" else "Speed") ++ "+Upflow"
             else if rewsVeer then "Speed" ++ "+Veer" else "Speed")).
  assert (Ht : t = rews_type_of rewsVeer rewsUpflow) by reflexivity.
  split; [|split; [|split; [|split]]].
  - intros ->. destruct (Req_EM_T 3 3); [|lra]. now rewrite Ht.
  - intros ->. destruct (Req_EM_T 2 3); [lra|].
    destruct (Req_EM_T 2 2); [|lra]. now rewrite Ht.
  - intros H3 H2. destruct (Req_EM_T e 3); [contradiction|].
    destruct (Req_EM_T e 2); [contradiction|].
    rewrite Ht, string_app_assoc. reflexivity.
  - intros ->. apply contains_app_r. apply (contains_app_r _ " (").
    unfold t. destruct rewsUpflow; rewrite !string_app_assoc;
      apply (contains_app_r _ "Speed"); apply contains_prefix.
  - intros ->. apply contains_app_r. apply (contains_app_r _ " (").
    unfold t. rewrite string_app_assoc. apply contains_app_r. apply contains_prefix.
Qed.

(** Python's [str(2.5)] is ["2.5"]. *)
Lemma RotorEquivalentWindSpeed_label_cases_witness :
  RotorEquivalentWindSpeed_label (fun _ => "2.5") true false (5 / 2)
    = "REWS-Exponent=2.5 (Speed+Veer)" /\
  contains "+Veer"
    (RotorEquivalentWindSpeed_label (fun _ => "2.5") true false (5 / 2)) = true.
Proof.
  destruct (RotorEquivalentWindSpeed_label_cases (fun _ => "2.5") true false (5 / 2))
    as [_ [_ [H3 [Hv _]]]].
  split.
  - rewrite H3 by lra. reflexivity.
  - apply Hv. reflexivity.
Defined.


(** ** Further properties of the module *)

(** *** Shared lemmas *)

Lemma calculate_name_total : forall P l, exists name, calculate_name P l = Ok name.
Proof.
  intros [c p | nm w pb s ws pc] l; unfold calculate_name; cbn [raw];
    eexists; reflexivity.
Qed.

Lemma WindSpeedBasedCorrection_init_wsb : forall l P,
  wind_speed_based P = true ->
  exists name, calculate_name P l = Ok name /\
    WindSpeedBasedCorrection_init l P =
      Ok (CorrectionObj name true false P (Some (name ++ " Wind Speed")) None).
Proof.
  intros l P H. destruct (calculate_name_total P l) as [name Hn].
  exists name. split; [exact Hn|].
  unfold WindSpeedBasedCorrection_init, Correction_init, can_chain.
  rewrite H, Hn. reflexivity.
Qed.

Lemma PowerBasedCorrection_init_wsb : forall {A} l P (a : A),
  wind_speed_based P = true ->
  exists name, calculate_name P l = Ok name /\
    PowerBasedCorrection_init l P (Passed a) =
      Ok (CorrectionObj name false true P None (Some (Some (name ++ " Power")))).
Proof.
  intros A l P a H. destruct (calculate_name_total P l) as [name Hn].
  exists name. split; [exact Hn|].
  unfold PowerBasedCorrection_init, Correction_init, can_chain.
  rewrite H, Hn. reflexivity.
Qed.

Lemma PowerBasedCorrection_init_shape : forall {A} l P (a : A) N,
  PowerBasedCorrection_init l P (Passed a) = Ok N ->
  exists name, calculate_name P l = Ok name /\
    N = CorrectionObj name false true P None (Some (Some (name ++ " Power"))).
Proof.
  intros A l P a N. unfold PowerBasedCorrection_init, Correction_init.
  destruct (negb (can_chain P)); [destruct (get_correction_name P); discriminate|].
  destruct (calculate_name P l) as [name|e] eqn:E; [|discriminate].
  cbn. intros H. injection H as <-. exists name. split; reflexivity.
Qed.

Lemma build_stage_wsb : forall T s,
  wind_speed_based T = true ->
  exists T1, build_stage T s = Ok T1 /\ wind_speed_based T1 = snd s.
Proof.
  intros T [l w] H. cbn [build_stage]. destruct w.
  - destruct (WindSpeedBasedCorrection_init_wsb l T H) as [name [_ E]].
    rewrite E. eexists; split; reflexivity.
  - destruct (PowerBasedCorrection_init_wsb l T tt H) as [name [_ E]].
    rewrite E. eexists; split; reflexivity.
Qed.

Lemma build_stage_not_wsb : forall T s,
  wind_speed_based T = false -> exists e, build_stage T s = Err e.
Proof.
  intros T [l w] H. cbn [build_stage].
  destruct w; unfold WindSpeedBasedCorrection_init, PowerBasedCorrection_init,
    Correction_init, can_chain; rewrite H; cbn [negb];
    destruct (get_correction_name T); eexists; reflexivity.
Qed.

(** The node of one stage built on a wind-speed-based parent. *)
Lemma build_stage_attributes : forall T s C,
  wind_speed_based T = true -> build_stage T s = Ok C ->
  exists name, correction_name C = Some name /\ raw C = false /\
    wind_speed_based C = snd s /\
    power_based C = negb (wind_speed_based C) /\
    (if wind_speed_based C
     then wind_speed_column C = Ok (Some (name ++ " Wind Speed")) /\
          power_column C = None
     else wind_speed_column C = Err (AttributeError "wind_speed_column") /\
          power_column C = Some (Some (name ++ " Power"))).
Proof.
  intros T [l w] C HT. cbn [build_stage]. destruct w; intros H.
  - destruct (WindSpeedBasedCorrection_init_wsb l T HT) as [name [_ E]].
    rewrite E in H. injection H as <-. exists name.
    repeat split; reflexivity.
  - destruct (PowerBasedCorrection_init_wsb l T tt HT) as [name [_ E]].
    rewrite E in H. injection H as <-. exists name.
    repeat split; reflexivity.
Qed.

Lemma build_stage_source : forall T s T1,
  build_stage T s = Ok T1 ->
  exists name w p wsc pc, T1 = CorrectionObj name w p T wsc pc.
Proof.
  intros T [l w] T1. cbn [build_stage]. destruct w; intros H.
  - apply WindSpeedBasedCorrection_init_shape in H as [name [_ ->]].
    do 5 eexists; reflexivity.
  - apply PowerBasedCorrection_init_shape in H as [name [_ ->]].
    do 5 eexists; reflexivity.
Qed.

Lemma build_chain_valid : forall stages T,
  wind_speed_based T = true ->
  (exists C, build_chain T stages = Ok C) <->
  Forall (fun s => snd s = true) (removelast stages).
Proof.
  induction stages as [|s rest IH]; intros T HT.
  - split; [intros _; constructor | intros _; exists T; reflexivity].
  - destruct (build_stage_wsb T s HT) as [T1 [Hs Hw]].
    cbn [build_chain]. rewrite Hs. cbn [bind].
    destruct rest as [|s' rest'].
    + split; [intros _; constructor | intros _; exists T1; reflexivity].
    + change (removelast (s :: s' :: rest')) with (s :: removelast (s' :: rest')).
      destruct (snd s) eqn:Hsnd.
      * rewrite (IH T1 Hw).
        split; [intros H; constructor; assumption | intros H; inversion H; assumption].
      * split.
        -- intros [C HC]. destruct (build_stage_not_wsb T1 s' Hw) as [e He].
           cbn [build_chain] in HC. rewrite He in HC. discriminate.
        -- intros H. inversion H. congruence.
Qed.

Lemma build_chain_last : forall rest T s C,
  wind_speed_based T = true -> build_chain T (s :: rest) = Ok C ->
  exists T0, wind_speed_based T0 = true /\
    build_stage T0 (last (s :: rest) ("", true)) = Ok C.
Proof.
  induction rest as [|s' rest IH]; intros T s C HT H.
  - cbn [build_chain] in H.
    destruct (build_stage T s) as [T1|e] eqn:E; cbn [bind] in H; [|discriminate].
    injection H as <-. exists T. split; assumption.
  - cbn [build_chain] in H.
    destruct (build_stage T s) as [T1|e] eqn:E; cbn [bind] in H; [|discriminate].
    destruct (wind_speed_based T1) eqn:Hw.
    + exact (IH T1 s' C Hw H).
    + destruct (build_stage_not_wsb T1 s' Hw) as [e He].
      cbn [build_chain] in H. rewrite He in H. discriminate.
Qed.

Lemma lookup_str_missing : forall k d,
  ~ In k (map fst d) -> lookup_str k d = Err (KeyError k).
Proof.
  intros k d. induction d as [|[k' v] d IH]; intros H; [reflexivity|].
  cbn [lookup_str]. cbn [map fst In] in H.
  destruct (String.eqb k' k) eqn:E.
  - apply String.eqb_eq in E. exfalso. apply H. left. exact E.
  - apply IH. intros Hi. apply H. right. exact Hi.
Qed.

Lemma lookup_str_err : forall k d e, lookup_str k d = Err e -> e = KeyError k.
Proof.
  intros k d e. induction d as [|[k' v] d IH]; cbn [lookup_str]; [congruence|].
  destruct (String.eqb k' k); [discriminate | exact IH].
Qed.

Lemma getcol_err {V} : forall c (r : rowT V) e, getcol c r = Err e -> e = KeyError c.
Proof.
  intros c r e. induction r as [|[k v] r IH]; cbn [getcol]; [congruence|].
  destruct (String.eqb k c); [discriminate | exact IH].
Qed.

Lemma collect_parameters_unmapped : forall dims pcs r acc,
  Exists (fun d => ~ In (parameter d) (map fst pcs)) dims ->
  exists k, collect_parameters dims pcs r acc = Err (KeyError k).
Proof.
  induction dims as [|d dims IH]; intros pcs r acc H; [inversion H|].
  cbn [collect_parameters].
  destruct (lookup_str (parameter d) pcs) as [col|e] eqn:El; cbn [bind].
  - inversion H as [x l Hd | x l Ht]; subst.
    + rewrite lookup_str_missing in El by exact Hd. discriminate.
    + destruct (getcol col r) as [v|e] eqn:Eg; cbn [bind].
      * apply IH. exact Ht.
      * apply getcol_err in Eg. subst. eexists; reflexivity.
  - apply lookup_str_err in El. subst. eexists; reflexivity.
Qed.

Lemma collect_parameters_spec : forall dims pcs r acc params,
  collect_parameters dims pcs r acc = Ok params ->
  Forall (fun d => exists column, lookup_str (parameter d) pcs = Ok column /\
            getcol (parameter d) params = getcol column r) dims /\
  (forall k, ~ In k (map parameter dims) -> getcol k params = getcol k acc).
Proof.
  induction dims as [|d dims IH]; intros pcs r acc params H.
  - cbn in H. injection H as <-. split; [constructor | reflexivity].
  - cbn [collect_parameters] in H.
    destruct (lookup_str (parameter d) pcs) as [col|e] eqn:El; cbn [bind] in H;
      [|discriminate].
    destruct (getcol col r) as [v|e] eqn:Eg; cbn [bind] in H; [|discriminate].
    destruct (IH _ _ _ _ H) as [Hf Ho]. split.
    + constructor; [|exact Hf].
      exists col. split; [exact El|].
      destruct (in_dec string_dec (parameter d) (map parameter dims)) as [Hin|Hnin].
      * apply in_map_iff in Hin as [d' [Hpd Hd']].
        rewrite Forall_forall in Hf. destruct (Hf d' Hd') as [col' [El' Hg']].
        rewrite Hpd, El in El'. injection El' as Ecol. subst col'.
        rewrite <- Hpd. exact Hg'.
      * rewrite (Ho _ Hnin), getcol_set_col_same. symmetry. exact Eg.
    + intros k Hk. cbn [map In] in Hk. rewrite Ho by tauto.
      apply getcol_set_col_other. intros ->. apply Hk. left. reflexivity.
Qed.

Lemma TurbulencePowerCalculator_power_inv : forall pc rp c ti r v,
  TurbulencePowerCalculator_power
    {| tpc_powerCurve := pc; tpc_ratedPower := rp;
       tpc_windSpeedColumn := Some c; tpc_turbulenceColumn := ti |} r = Ok v ->
  exists ws t, getcol c r = Ok ws /\ getcol ti r = Ok t /\
    v = turbulence_power pc ws t.
Proof.
  intros pc rp c ti r v. unfold TurbulencePowerCalculator_power.
  cbn [tpc_windSpeedColumn tpc_turbulenceColumn tpc_powerCurve getcol_opt].
  destruct (getcol c r) as [ws|e]; cbn [bind]; [|discriminate].
  destruct (getcol ti r) as [t|e]; cbn [bind]; [|discriminate].
  intros H. injection H as <-. exists ws, t. repeat split.
Qed.

Lemma TurbulencePowerCalculator_power_intro : forall pc rp c ti r ws t,
  getcol c r = Ok ws -> getcol ti r = Ok t ->
  TurbulencePowerCalculator_power
    {| tpc_powerCurve := pc; tpc_ratedPower := rp;
       tpc_windSpeedColumn := Some c; tpc_turbulenceColumn := ti |} r =
  Ok (turbulence_power pc ws t).
Proof.
  intros pc rp c ti r ws t Hws Ht. unfold TurbulencePowerCalculator_power.
  cbn [tpc_windSpeedColumn tpc_turbulenceColumn tpc_powerCurve getcol_opt].
  rewrite Hws. cbn [bind]. rewrite Ht. reflexivity.
Qed.

(** ** C6: density-equivalent wind speed *)

Lemma density_value_positive : forall a b ref,
  ref <> 0 -> 0 < b / ref ->
  f64_mul (Fin a) (f64_pow_third (f64_div (Fin b) ref)) =
    Fin (a * Rpower (b / ref) (1 / 3)).
Proof.
  intros a b ref Href Hpos. unfold f64_div.
  destruct (Req_EM_T ref 0) as [E|_]; [contradiction|].
  unfold f64_pow_third. destruct (Rlt_dec 0 (b / ref)) as [_|n]; [|contradiction].
  reflexivity.
Qed.

Lemma density_value_zero : forall a ref,
  ref <> 0 -> f64_mul (Fin a) (f64_pow_third (f64_div (Fin 0) ref)) = Fin 0.
Proof.
  intros a ref Href. unfold f64_div.
  destruct (Req_EM_T ref 0) as [E|_]; [contradiction|].
  unfold f64_pow_third. rewrite Rdiv_0_l.
  destruct (Rlt_dec 0 0) as [H|_]; [lra|].
  destruct (Req_EM_T 0 0) as [_|n]; [|exfalso; exact (n eq_refl)].
  cbn [f64_mul]. f_equal. ring.
Qed.

Lemma density_value_negative : forall a b ref,
  ref <> 0 -> b / ref < 0 ->
  f64_mul (Fin a) (f64_pow_third (f64_div (Fin b) ref)) = NaN.
Proof.
  intros a b ref Href Hneg. unfold f64_div.
  destruct (Req_EM_T ref 0) as [E|_]; [contradiction|].
  unfold f64_pow_third.
  destruct (Rlt_dec 0 (b / ref)) as [H|_]; [lra|].
  destruct (Req_EM_T (b / ref) 0) as [H|_]; [lra|]. reflexivity.
Qed.

Lemma density_value_zero_reference : forall ws d x,
  f64_mul ws (f64_pow_third (f64_div d 0)) <> Fin x.
Proof.
  intros ws d x. unfold f64_div.
  destruct d as [b|n|]; [destruct (Req_EM_T 0 0) as [_|n]; [|exfalso; exact (n eq_refl)];
    destruct (Req_EM_T b 0) | destruct (Req_EM_T 0 0) |];
    cbn [f64_pow_third]; destruct ws as [a|m|]; cbn [f64_mul];
    try discriminate; destruct (Req_EM_T a 0); discriminate.
Qed.

Lemma densityCorrectedHubWindSpeed_ok : forall ref c dens r ws d,
  getcol c r = Ok ws -> getcol dens r = Ok d ->
  densityCorrectedHubWindSpeed
    {| dcc_referenceDensity := ref; dcc_windSpeedColumn := Some c;
       dcc_densityColumn := dens |} r =
    Ok (f64_mul ws (f64_pow_third (f64_div d ref))).
Proof.
  intros ref c dens r ws d Hws Hd. unfold densityCorrectedHubWindSpeed.
  cbn [dcc_windSpeedColumn dcc_densityColumn dcc_referenceDensity getcol_opt].
  rewrite Hws. cbn [bind]. rewrite Hd. reflexivity.
Qed.

Lemma densityCorrectedHubWindSpeed_err : forall ref c dens r e,
  densityCorrectedHubWindSpeed
    {| dcc_referenceDensity := ref; dcc_windSpeedColumn := Some c;
       dcc_densityColumn := dens |} r = Err e ->
  e = KeyError c \/ e = KeyError dens.
Proof.
  intros ref c dens r e. unfold densityCorrectedHubWindSpeed.
  cbn [dcc_windSpeedColumn dcc_densityColumn dcc_referenceDensity getcol_opt].
  destruct (getcol c r) as [ws|e1] eqn:E1; cbn [bind].
  - destruct (getcol dens r) as [d|e2] eqn:E2; cbn [bind]; [discriminate|].
    intros H. injection H as <-. right. exact (getcol_err _ _ _ E2).
  - intros H. injection H as <-. left. exact (getcol_err _ _ _ E1).
Qed.

Lemma wind_speed_power_names_differ : forall name,
  name ++ " Wind Speed" <> name ++ " Power".
Proof.
  induction name as [|a name IH]; [discriminate|].
  intros H. injection H. exact IH.
Qed.

(** A correction that has just written its ["<name> Wind Speed"] column
    into every row finalises without error, with or without a power
    curve. *)
Lemma WindSpeedBasedCorrection_finalise_after_assign {V} :
  forall name b P (f : rowT V -> result V) df df1 pc,
  apply_assign (name ++ " Wind Speed") f df = Ok df1 ->
  exists res,
    WindSpeedBasedCorrection_finalise
      (CorrectionObj name true b P (Some (name ++ " Wind Speed")) None) df1 pc
    = Ok res.
Proof.
  intros name b P f df df1 pc E1.
  pose proof (apply_assign_rows _ _ _ _ E1) as Hr1.
  unfold WindSpeedBasedCorrection_finalise. cbn [get_correction_name correction_name bind].
  destruct pc as [curve|]; [|eexists; reflexivity].
  cbn [wind_speed_column bind].
  assert (Hp : Forall (fun r => exists v,
            PowerCalculator_power curve (Some (name ++ " Wind Speed")) r = Ok v) df1).
  { clear -Hr1. induction Hr1 as [|r r' df df' [v [_ ->]] _ IH]; constructor; [|exact IH].
    unfold PowerCalculator_power. cbn [getcol_opt]. rewrite getcol_set_col_same.
    eexists. reflexivity. }
  destruct (proj2 (apply_assign_total (name ++ " Power") _ df1) Hp) as [df2 E2].
  rewrite E2. eexists. reflexivity.
Qed.

(** An error of [data_frame.apply] is the error of one of the rows. *)
Lemma apply_rows_err {V} : forall (f : rowT V -> result V) df e,
  apply_rows f df = Err e -> exists r, In r df /\ f r = Err e.
Proof.
  intros f df e. induction df as [|r df IH]; cbn [apply_rows]; [discriminate|].
  destruct (f r) as [v|e1] eqn:E; cbn [bind].
  - destruct (apply_rows f df) as [vs|e2]; cbn [bind]; [discriminate|].
    intros H. destruct (IH H) as [r1 [Hin Hr1]]. exists r1. split; [now right|exact Hr1].
  - intros H. injection H as <-. exists r. split; [now left|exact E].
Qed.

Lemma densityCorrectedHubWindSpeed_ok_inv : forall ref c dens r v,
  densityCorrectedHubWindSpeed
    {| dcc_referenceDensity := ref; dcc_windSpeedColumn := Some c;
       dcc_densityColumn := dens |} r = Ok v ->
  exists ws d, getcol c r = Ok ws /\ getcol dens r = Ok d.
Proof.
  intros ref c dens r v. unfold densityCorrectedHubWindSpeed.
  cbn [dcc_windSpeedColumn dcc_densityColumn dcc_referenceDensity getcol_opt].
  destruct (getcol c r) as [ws|e1]; cbn [bind]; [|discriminate].
  destruct (getcol dens r) as [d|e2]; cbn [bind]; [|discriminate].
  intros _. exists ws, d. split; reflexivity.
Qed.

(** [DensityEquivalentWindSpeed] on a wind-speed-based parent whose
    wind-speed column [c] and the density column are present in every
    row: it succeeds, and each row gets the calculator's value in
    ["<name> Wind Speed"]; the other columns, but ["<name> Power"], are
    kept. *)
Lemma DensityEquivalentWindSpeed_init_rows : forall df P c ref dens pc,
  wind_speed_based P = true -> wind_speed_column P = Ok (Some c) ->
  Forall (fun r => exists ws d, getcol c r = Ok ws /\ getcol dens r = Ok d) df ->
  exists N df' name,
    DensityEquivalentWindSpeed_init df P ref dens pc = Ok (N, df') /\
    calculate_name P "Density" = Ok name /\
    correction_name N = Some name /\
    Forall2 (fun r r' => exists ws d,
               getcol c r = Ok ws /\ getcol dens r = Ok d /\
               getcol (name ++ " Wind Speed") r' =
                 Ok (f64_mul ws (f64_pow_third (f64_div d ref)))) df df'.
Proof.
  intros df P c ref dens pc Hw Hc Hall.
  destruct (WindSpeedBasedCorrection_init_wsb "Density" P Hw) as [name [Hname Hi]].
  set (calc := {| dcc_referenceDensity := ref; dcc_windSpeedColumn := Some c;
                  dcc_densityColumn := dens |}).
  assert (Hrows : Forall (fun r => exists v, densityCorrectedHubWindSpeed calc r = Ok v) df).
  { eapply Forall_impl; [|exact Hall]. intros r [ws [d [H1 H2]]].
    eexists. exact (densityCorrectedHubWindSpeed_ok ref c dens r ws d H1 H2). }
  destruct (proj2 (apply_assign_total (name ++ " Wind Speed") _ df) Hrows) as [df1 E1].
  pose proof (apply_assign_rows _ _ _ _ E1) as Hr1.
  destruct (WindSpeedBasedCorrection_finalise_after_assign name false P _ df df1 pc E1)
    as [[N df'] Hfin].
  exists N, df', name. split.
  - unfold DensityEquivalentWindSpeed_init. rewrite Hi, Hc.
    cbn [bind wind_speed_column fmt_opt]. fold calc. rewrite E1. cbn [bind]. exact Hfin.
  - split; [exact Hname|].
    apply WindSpeedBasedCorrection_finalise_keeps in Hfin as [Hn Hk].
    split; [exact Hn|].
    pose proof (Forall2_compose _ _ _ _ _ Hr1 Hk) as Hcomp.
    clear -Hcomp Hall.
    induction Hcomp as [|r r' df df' [r1 [[v [Hv ->]] Hk1]] _ IH];
      inversion Hall as [|x l [ws [d [H1 H2]]] Hall']; subst; constructor; [|exact (IH Hall')].
    exists ws, d. split; [exact H1|]. split; [exact H2|].
    rewrite Hk1 by apply wind_speed_power_names_differ.
    rewrite getcol_set_col_same.
    unfold calc in Hv. rewrite (densityCorrectedHubWindSpeed_ok ref c dens r ws d H1 H2) in Hv.
    now rewrite Hv.
Qed.

Lemma cube_root_cubed : forall x, 0 < x -> Rpower x (1 / 3) ^ 3 = x.
Proof.
  intros x Hx. rewrite <- Rpower_pow by apply exp_pos.
  rewrite Rpower_mult. replace (1 / 3 * INR 3) with 1 by (simpl; lra).
  now apply Rpower_1.
Qed.

(** The value of the spec's example: [10 * (1 / 1.225) ^ (1/3)]. *)
Lemma density_example_bounds :
  9.34 < 10 * Rpower (1 / 1.225) (1 / 3) < 9.35.
Proof.
  pose proof (cube_root_cubed (1 / 1.225) ltac:(lra)) as H3.
  pose proof (exp_pos (1 / 3 * ln (1 / 1.225))) as Hpos.
  fold (Rpower (1 / 1.225) (1 / 3)) in Hpos.
  set (v := Rpower (1 / 1.225) (1 / 3)) in *.
  split; nra.
Qed.

Lemma density_example_run :
  exists N r',
    DensityEquivalentWindSpeed_init [[("WS", Fin 10); ("Density", Fin 1)]]
      (Source_init (Some "WS")) 1.225 "Density" None = Ok (N, [r']) /\
    getcol "Density Wind Speed" r' = Ok (Fin (10 * Rpower (1 / 1.225) (1 / 3))).
Proof.
  destruct (DensityEquivalentWindSpeed_init_rows [[("WS", Fin 10); ("Density", Fin 1)]]
              (Source_init (Some "WS")) "WS" 1.225 "Density" None eq_refl eq_refl
              ltac:(constructor; [exists (Fin 10), (Fin 1); split; reflexivity | constructor]))
    as [N [df' [name [Hrun [Hname [Hn Hrows]]]]]].
  inversion Hrows as [|r r' l l' [ws [d [H1 [H2 H3]]]] Hnil]; subst.
  inversion Hnil; subst.
  cbv in Hname. injection Hname as <-.
  exists N, r'. split; [exact Hrun|].
  cbn in H1, H2. injection H1 as <-. injection H2 as <-.
  change ("Density" ++ " Wind Speed")%string with "Density Wind Speed" in H3.
  rewrite H3. rewrite density_value_positive by lra. reflexivity.
Qed.

(** C6 (counterexample). On the spec's example (wind speed 10.0, density
    1.0, reference density 1.225) the corrected speed is about 9.346, more
    than 0.07 away from the stated 9.428. *)
Lemma density_example_not_9_428 :
  exists N r' v,
    DensityEquivalentWindSpeed_init [[("WS", Fin 10); ("Density", Fin 1)]]
      (Source_init (Some "WS")) 1.225 "Density" None = Ok (N, [r']) /\
    getcol "Density Wind Speed" r' = Ok (Fin v) /\
    0.07 < 9.428 - v.
Proof.
  destruct density_example_run as [N [r' [Hrun Hv]]].
  exists N, r', (10 * Rpower (1 / 1.225) (1 / 3)).
  split; [exact Hrun|]. split; [exact Hv|].
  pose proof density_example_bounds. lra.
Qed.

(** C6 (amended).  On a wind-speed-based parent whose wind-speed column
    and the density column are present in every row,
    [DensityEquivalentWindSpeed] raises nothing and writes into each
    row's ["<name> Wind Speed"] column, for a finite wind speed [ws] and
    density [d] and a non-zero reference density [ref]: the value
    [ws * (d / ref) ^ (1/3)] when [d / ref > 0]; [0] when [d = 0]; NaN when
    [d / ref < 0].  With [ref = 0] the value is an infinity or NaN.  For
    wind speed 10.0, density 1.0 and reference density 1.225 the value is
    [10.0 * (1.0/1.225) ^ (1/3)], about 9.346 (between 9.34 and 9.35). *)
Theorem density_corrected_wind_speed :
  (forall df P c ref dens pc,
     wind_speed_based P = true -> wind_speed_column P = Ok (Some c) ->
     Forall (fun r => exists ws d, getcol c r = Ok ws /\ getcol dens r = Ok d) df ->
     exists N df' name,
       DensityEquivalentWindSpeed_init df P ref dens pc = Ok (N, df') /\
       correction_name N = Some name /\
       Forall2 (fun r r' => exists ws d v,
                  getcol c r = Ok ws /\ getcol dens r = Ok d /\
                  getcol (name ++ " Wind Speed") r' = Ok v /\
                  (forall a b, ws = Fin a -> d = Fin b -> ref <> 0 ->
                     (0 < b / ref -> v = Fin (a * Rpower (b / ref) (1 / 3))) /\
                     (b = 0 -> v = Fin 0) /\
                     (b / ref < 0 -> v = NaN)) /\
                  (ref = 0 -> forall x, v <> Fin x)) df df') /\
  (exists N r',
     DensityEquivalentWindSpeed_init [[("WS", Fin 10); ("Density", Fin 1)]]
       (Source_init (Some "WS")) 1.225 "Density" None = Ok (N, [r']) /\
     getcol "Density Wind Speed" r' = Ok (Fin (10 * Rpower (1 / 1.225) (1 / 3)))) /\
  9.34 < 10 * Rpower (1 / 1.225) (1 / 3) < 9.35.
Proof.
  split; [|split; [exact density_example_run | exact density_example_bounds]].
  intros df P c ref dens pc Hw Hc Hall.
  destruct (DensityEquivalentWindSpeed_init_rows df P c ref dens pc Hw Hc Hall)
    as [N [df' [name [Hrun [_ [Hn Hrows]]]]]].
  exists N, df', name. split; [exact Hrun|]. split; [exact Hn|].
  eapply Forall2_impl; [|exact Hrows].
  intros r r' [ws [d [H1 [H2 H3]]]].
  exists ws, d, (f64_mul ws (f64_pow_third (f64_div d ref))).
  split; [exact H1|]. split; [exact H2|]. split; [exact H3|]. split.
  - intros a b -> -> Href. split; [|split].
    + apply density_value_positive; assumption.
    + intros ->. apply density_value_zero. exact Href.
    + apply density_value_negative. exact Href.
  - intros -> x. apply density_value_zero_reference.
Qed.

(** The mixed frame of one positive and one negative density: the
    construction succeeds. *)
Lemma density_corrected_wind_speed_witness :
  exists N df',
    DensityEquivalentWindSpeed_init
      [[("WS", Fin 10); ("Density", Fin 1)]; [("WS", Fin 8); ("Density", Fin (-1))]]
      (Source_init (Some "WS")) 1.225 "Density" None = Ok (N, df').
Proof.
  destruct (proj1 density_corrected_wind_speed
              [[("WS", Fin 10); ("Density", Fin 1)]; [("WS", Fin 8); ("Density", Fin (-1))]]
              (Source_init (Some "WS")) "WS" 1.225 "Density" None eq_refl eq_refl
              ltac:(constructor; [exists (Fin 10), (Fin 1); split; reflexivity |
                    constructor; [exists (Fin 8), (Fin (-1)); split; reflexivity |
                                  constructor]]))
    as [N [df' [_ [H _]]]].
  exists N, df'. exact H.
Defined.

(** *** The deviation-matrix calculator and correction *)

(** The deviation-matrix correction is named after the dimensionality of
    the matrix, ["<n>D Power Deviation Matrix"], composed with its parent's
    name; it is power based, its power column is ["<name> Power"], and in
    every row it writes the curve's power at the parent's wind speed times
    [1 + deviation], the deviation being the matrix's value at the
    parameters read from that row. *)
Theorem PowerDeviationMatrixCorrection_columns : forall df P m pcs curve N df',
  PowerDeviationMatrixCorrection_init df P m pcs curve = Ok (N, df') ->
  exists name swsc,
    calculate_name P (nat_str (length (matrix_dimensions m)) ++
                      "D Power Deviation Matrix") = Ok name /\
    power_based N = true /\
    power_column N = Some (Some (name ++ " Power")) /\
    wind_speed_column P = Ok swsc /\
    Forall2 (fun r r' => exists params ws,
               collect_parameters (matrix_dimensions m) pcs r [] = Ok params /\
               getcol_opt swsc r = Ok ws /\
               r' = set_col (name ++ " Power")
                      (curve ws * (1 + deviation_at m params)) r) df df'.
Proof.
  intros df P m pcs curve N df' H. unfold PowerDeviationMatrixCorrection_init in H.
  destruct (PowerBasedCorrection_init (PowerDeviationMatrix_label m) P (Passed curve))
    as [N0|e] eqn:E0; cbn [bind] in H; [|discriminate].
  apply PowerBasedCorrection_init_shape in E0 as [name [Hn ->]].
  destruct (wind_speed_column P) as [swsc|e]; cbn [bind] in H; [|discriminate].
  unfold PowerBasedCorrection_finalise in H. cbn [power_column] in H.
  destruct (apply_assign (name ++ " Power") _ df) as [df1|e] eqn:E1;
    cbn [bind] in H; [|discriminate].
  injection H as <- <-.
  exists name, swsc.
  unfold PowerDeviationMatrix_label in Hn. rewrite string_app_assoc in Hn.
  split; [exact Hn|]. split; [reflexivity|]. split; [reflexivity|].
  split; [reflexivity|].
  apply apply_assign_rows in E1. eapply Forall2_impl; [|exact E1].
  intros r r' [v [Hv ->]]. unfold PowerDeviationMatrixPowerCalculator_power in Hv.
  destruct (collect_parameters (matrix_dimensions m) pcs r []) as [params|e];
    cbn [bind] in Hv; [|discriminate].
  destruct (getcol_opt swsc r) as [ws|e]; cbn [bind] in Hv; [|discriminate].
  injection Hv as <-. exists params, ws. repeat split.
Qed.

Lemma PowerDeviationMatrixCorrection_columns_witness :
  exists N df',
    PowerDeviationMatrixCorrection_init [[("WS", 10); ("TI", 0.1)]]
      (Source_init (Some "WS"))
      {| matrix_dimensions :=
           [{| parameter := "Turbulence"; centerOfFirstBin := 0.04;
               centerOfLastBin := 0.2 |}];
         deviation_at := fun _ => 0.02 |}
      [("Turbulence", "TI")] (fun ws => 100 * ws) = Ok (N, df') /\
    power_column N = Some (Some "1D Power Deviation Matrix Power").
Proof.
  eexists; eexists; split; [reflexivity|].
  destruct (PowerDeviationMatrixCorrection_columns [[("WS", 10); ("TI", 0.1)]]
      (Source_init (Some "WS"))
      {| matrix_dimensions :=
           [{| parameter := "Turbulence"; centerOfFirstBin := 0.04;
               centerOfLastBin := 0.2 |}];
         deviation_at := fun _ => 0.02 |}
      [("Turbulence", "TI")] (fun ws => 100 * ws) _ _ eq_refl)
    as [name [swsc [Hn [_ [Hp _]]]]].
  cbv in Hn. injection Hn as <-. exact Hp.
Defined.

(** When the matrix holds no deviation at a row's parameters, the
    deviation-matrix calculator gives the plain power curve's value for
    that row. *)
Theorem PowerDeviationMatrixPowerCalculator_zero_deviation :
  forall curve m wsc pcs r params,
  collect_parameters (matrix_dimensions m) pcs r [] = Ok params ->
  deviation_at m params = 0 ->
  PowerDeviationMatrixPowerCalculator_power curve m wsc pcs r =
    PowerCalculator_power curve wsc r.
Proof.
  intros curve m wsc pcs r params Hp Hd.
  unfold PowerDeviationMatrixPowerCalculator_power, PowerCalculator_power.
  rewrite Hp. cbn [bind]. rewrite Hd.
  destruct (getcol_opt wsc r); cbn [bind]; [|reflexivity].
  f_equal. ring.
Qed.

Lemma PowerDeviationMatrixPowerCalculator_zero_deviation_witness :
  PowerDeviationMatrixPowerCalculator_power (fun ws => 100 * ws)
    {| matrix_dimensions :=
         [{| parameter := "Turbulence"; centerOfFirstBin := 0.04;
             centerOfLastBin := 0.2 |}];
       deviation_at := fun _ => 0 |}
    (Some "WS") [("Turbulence", "TI")] [("WS", 10); ("TI", 0.1)] =
  PowerCalculator_power (fun ws => 100 * ws) (Some "WS") [("WS", 10); ("TI", 0.1)].
Proof.
  apply (PowerDeviationMatrixPowerCalculator_zero_deviation _ _ _ _ _
           [("Turbulence", 0.1)]); reflexivity.
Defined.

(** A matrix dimension whose parameter has no entry in [parameterColumns]
    makes the deviation-matrix calculator raise [KeyError] on every row,
    whether or not the row has a wind speed. *)
Theorem PowerDeviationMatrixPowerCalculator_unmapped : forall curve m wsc pcs r,
  Exists (fun d => ~ In (parameter d) (map fst pcs)) (matrix_dimensions m) ->
  exists k, PowerDeviationMatrixPowerCalculator_power curve m wsc pcs r =
              Err (KeyError k).
Proof.
  intros curve m wsc pcs r H. unfold PowerDeviationMatrixPowerCalculator_power.
  destruct (collect_parameters_unmapped _ pcs r [] H) as [k Hk].
  rewrite Hk. exists k. reflexivity.
Qed.

Lemma PowerDeviationMatrixPowerCalculator_unmapped_witness :
  exists k, PowerDeviationMatrixPowerCalculator_power (fun ws => 100 * ws)
    {| matrix_dimensions :=
         [{| parameter := "Turbulence"; centerOfFirstBin := 0.04;
             centerOfLastBin := 0.2 |}];
       deviation_at := fun _ => 0 |}
    (Some "WS") [("Shear", "Shear Exponent")] [] = Err (KeyError k).
Proof.
  apply PowerDeviationMatrixPowerCalculator_unmapped.
  apply Exists_cons_hd. cbn. intros [H|H]; [discriminate | exact H].
Defined.

(** The [parameters] dict handed to the matrix maps each dimension's
    parameter to the row's value in the column [parameterColumns] names
    for it, and holds no other key. *)
Theorem PowerDeviationMatrixPowerCalculator_parameters : forall dims pcs r params,
  collect_parameters dims pcs r [] = Ok params ->
  Forall (fun d => exists column, lookup_str (parameter d) pcs = Ok column /\
            getcol (parameter d) params = getcol column r) dims /\
  (forall k, ~ In k (map parameter dims) -> getcol k params = Err (KeyError k)).
Proof.
  intros dims pcs r params H.
  destruct (collect_parameters_spec _ _ _ _ _ H) as [H1 H2].
  split; [exact H1|]. intros k Hk. rewrite (H2 k Hk). reflexivity.
Qed.

Lemma PowerDeviationMatrixPowerCalculator_parameters_witness :
  exists params,
    collect_parameters
      [{| parameter := "Turbulence"; centerOfFirstBin := 0.04; centerOfLastBin := 0.2 |};
       {| parameter := "Shear"; centerOfFirstBin := 0; centerOfLastBin := 0.4 |}]
      [("Turbulence", "TI"); ("Shear", "Shear Exponent")]
      [("WS", 10); ("TI", 0.1); ("Shear Exponent", 0.2)] [] = Ok params /\
    Forall (fun d => exists column,
              lookup_str (parameter d) [("Turbulence", "TI"); ("Shear", "Shear Exponent")]
                = Ok column /\
              getcol (parameter d) params =
                getcol column [("WS", 10); ("TI", 0.1); ("Shear Exponent", 0.2)])
      [{| parameter := "Turbulence"; centerOfFirstBin := 0.04; centerOfLastBin := 0.2 |};
       {| parameter := "Shear"; centerOfFirstBin := 0; centerOfLastBin := 0.4 |}] /\
    (forall k, ~ In k ["Turbulence"; "Shear"] -> getcol k params = Err (KeyError k)).
Proof.
  eexists. split; [reflexivity|].
  apply (PowerDeviationMatrixPowerCalculator_parameters
           [{| parameter := "Turbulence"; centerOfFirstBin := 0.04;
               centerOfLastBin := 0.2 |};
            {| parameter := "Shear"; centerOfFirstBin := 0; centerOfLastBin := 0.4 |}]
           [("Turbulence", "TI"); ("Shear", "Shear Exponent")]
           [("WS", 10); ("TI", 0.1); ("Shear Exponent", 0.2)]).
  reflexivity.
Defined.

(** *** Chains *)

(** A chain of stages built from a [Source] is constructed without error
    exactly when every stage but the last is wind-speed based: only the
    last stage may be power based. *)
Theorem build_chain_from_source_valid : forall col stages,
  (exists C, build_chain (Source_init col) stages = Ok C) <->
  Forall (fun s => snd s = true) (removelast stages).
Proof.
  intros col stages. apply build_chain_valid. reflexivity.
Qed.

(** The last node of a chain built from a [Source] is a correction
    ([raw] false) whose family is that of the last stage, with
    [power_based = not wind_speed_based]; a wind-speed-based node has the
    wind-speed column ["<name> Wind Speed"] and no power column yet, a
    power-based one has no wind-speed column and the power column
    ["<name> Power"], computed by a second [calculate_name] call that
    agrees with its [correction_name]. *)
Theorem build_chain_node_attributes : forall col stages C,
  build_chain (Source_init col) stages = Ok C -> stages <> [] ->
  exists name, correction_name C = Some name /\ raw C = false /\
    wind_speed_based C = snd (last stages ("", true)) /\
    power_based C = negb (wind_speed_based C) /\
    (if wind_speed_based C
     then wind_speed_column C = Ok (Some (name ++ " Wind Speed")) /\
          power_column C = None
     else wind_speed_column C = Err (AttributeError "wind_speed_column") /\
          power_column C = Some (Some (name ++ " Power"))).
Proof.
  intros col [|s rest] C H Hne; [contradiction|].
  destruct (build_chain_last rest (Source_init col) s C eq_refl H) as [T0 [HT0 Hs]].
  exact (build_stage_attributes T0 _ C HT0 Hs).
Qed.

Lemma build_chain_node_attributes_witness :
  exists C,
    build_chain (Source_init (Some "WS")) [("Density", true); ("Turbulence", false)]
      = Ok C /\
    exists name, correction_name C = Some name /\ raw C = false /\
      wind_speed_based C = false /\ power_based C = true /\
      wind_speed_column C = Err (AttributeError "wind_speed_column") /\
      power_column C = Some (Some (name ++ " Power")).
Proof.
  eexists. split; [reflexivity|].
  destruct (build_chain_node_attributes (Some "WS")
              [("Density", true); ("Turbulence", false)] _ eq_refl
              ltac:(discriminate)) as [name [H1 [H2 [H3 [H4 [H5 H6]]]]]].
  exists name. repeat split; assumption.
Defined.

(** Following the [source] links from a node built by a chain reaches the
    node the chain started from, after one link per stage. *)
Theorem build_chain_links : forall stages T C,
  build_chain T stages = Ok C ->
  chain_root C = chain_root T /\
  chain_depth C = (chain_depth T + length stages)%nat.
Proof.
  induction stages as [|s rest IH]; intros T C H.
  - cbn in H. injection H as <-. split; [reflexivity | cbn [length]; lia].
  - cbn [build_chain] in H.
    destruct (build_stage T s) as [T1|e] eqn:E; cbn [bind] in H; [|discriminate].
    destruct (build_stage_source T s T1 E) as [name [w [p [wsc [pc ->]]]]].
    destruct (IH _ _ H) as [Hr Hd]. rewrite Hr, Hd.
    split; [reflexivity | cbn [chain_depth length]; lia].
Qed.

Lemma build_chain_links_witness :
  exists C,
    build_chain (Source_init (Some "WS"))
      [("Density", true); ("REWS (Speed)", true); ("Turbulence", false)] = Ok C /\
    chain_root C = Source_init (Some "WS") /\ chain_depth C = 3%nat.
Proof.
  eexists. split; [reflexivity|].
  exact (build_chain_links
           [("Density", true); ("REWS (Speed)", true); ("Turbulence", false)]
           (Source_init (Some "WS")) _ eq_refl).
Defined.

(** *** Finalisation of power-based corrections *)

(** [PowerBasedCorrection.finalise] succeeds exactly when the calculator
    succeeds on every row; it then writes the calculator's value into the
    power column of every row, leaves every other column as it was and
    leaves the node unchanged. *)
Theorem PowerBasedCorrection_finalise_writes : forall self p df calc,
  power_column self = Some (Some p) ->
  ((exists res, PowerBasedCorrection_finalise self df calc = Ok res) <->
   Forall (fun r => exists v, calc r = Ok v) df) /\
  (forall N df', PowerBasedCorrection_finalise self df calc = Ok (N, df') ->
   N = self /\
   Forall2 (fun r r' => exists v, calc r = Ok v /\ getcol p r' = Ok v /\
              forall k, k <> p -> getcol k r' = getcol k r) df df').
Proof.
  intros self p df calc Hp. unfold PowerBasedCorrection_finalise. rewrite Hp. split.
  - rewrite <- (apply_assign_total p calc df). split.
    + intros [res H].
      destruct (apply_assign p calc df) as [df'|e]; cbn [bind] in H;
        [eexists; reflexivity | discriminate].
    + intros [df' H]. rewrite H. eexists; reflexivity.
  - intros N df' H.
    destruct (apply_assign p calc df) as [df1|e] eqn:E; cbn [bind] in H;
      [|discriminate].
    injection H as <- <-. split; [reflexivity|].
    apply apply_assign_rows in E. eapply Forall2_impl; [|exact E].
    intros r r' [v [Hv ->]]. exists v. split; [exact Hv|].
    split; [apply getcol_set_col_same|].
    intros k Hk. now apply getcol_set_col_other.
Qed.

Lemma PowerBasedCorrection_finalise_writes_witness :
  exists res,
    PowerBasedCorrection_finalise
      (CorrectionObj "Turbulence" false true (Source_init (Some "WS")) None
         (Some (Some "Turbulence Power")))
      [[("WS", 10)]; [("WS", 12)]]
      (fun r => res_map (fun ws => 100 * ws) (getcol "WS" r)) = Ok res.
Proof.
  apply (proj1 (PowerBasedCorrection_finalise_writes
                  (CorrectionObj "Turbulence" false true (Source_init (Some "WS")) None
                     (Some (Some "Turbulence Power")))
                  "Turbulence Power" [[("WS", 10)]; [("WS", 12)]]
                  (fun r => res_map (fun ws => 100 * ws) (getcol "WS" r)) eq_refl)).
  repeat constructor; eexists; reflexivity.
Defined.

Lemma TurbulenceCorrection_init_rows : forall df P c ti pc,
  wind_speed_based P = true -> wind_speed_column P = Ok (Some c) ->
  ((exists res, TurbulenceCorrection_init df P ti pc = Ok res) <->
   Forall (fun r => exists ws t, getcol c r = Ok ws /\ getcol ti r = Ok t) df) /\
  (forall N df', TurbulenceCorrection_init df P ti pc = Ok (N, df') ->
   exists name, calculate_name P "Turbulence" = Ok name /\
     correction_name N = Some name /\
     power_column N = Some (Some (name ++ " Power")) /\
     Forall2 (fun r r' => exists ws t, getcol c r = Ok ws /\ getcol ti r = Ok t /\
                r' = set_col (name ++ " Power") (turbulence_power pc ws t) r) df df').
Proof.
  intros df P c ti pc Hw Hc.
  destruct (PowerBasedCorrection_init_wsb "Turbulence" P pc Hw) as [name [Hn Hi]].
  unfold TurbulenceCorrection_init. rewrite Hi, Hc. cbn [bind].
  unfold PowerBasedCorrection_finalise. cbn [power_column]. split.
  - split.
    + intros [res H].
      destruct (apply_assign (name ++ " Power") _ df) as [df'|e] eqn:E;
        cbn [bind] in H; [|discriminate].
      pose proof (proj1 (apply_assign_total _ _ df) (ex_intro _ df' E)) as Hall.
      eapply Forall_impl; [|exact Hall]. intros r [v Hv].
      apply TurbulencePowerCalculator_power_inv in Hv
        as [ws [t [H1 [H2 _]]]].
      exists ws, t. split; assumption.
    + intros Hall.
      assert (Hrows : Forall (fun r => exists v,
                TurbulencePowerCalculator_power
                  {| tpc_powerCurve := pc; tpc_ratedPower := ratedPower pc;
                     tpc_windSpeedColumn := Some c; tpc_turbulenceColumn := ti |} r
                  = Ok v) df).
      { eapply Forall_impl; [|exact Hall]. intros r [ws [t [H1 H2]]].
        exists (turbulence_power pc ws t).
        apply TurbulencePowerCalculator_power_intro; [exact H1 | exact H2]. }
      destruct (proj2 (apply_assign_total (name ++ " Power") _ df) Hrows) as [df' E].
      rewrite E. eexists; reflexivity.
  - intros N df' H.
    destruct (apply_assign (name ++ " Power") _ df) as [df1|e] eqn:E;
      cbn [bind] in H; [|discriminate].
    injection H as <- <-. exists name.
    split; [exact Hn|]. split; [reflexivity|]. split; [reflexivity|].
    apply apply_assign_rows in E. eapply Forall2_impl; [|exact E].
    intros r r' [v [Hv ->]].
    apply TurbulencePowerCalculator_power_inv in Hv
      as [ws [t [H1 [H2 ->]]]].
    exists ws, t. split; [exact H1|]. split; [exact H2|]. reflexivity.
Qed.

(** On a wind-speed-based parent whose wind-speed column is [c],
    [TurbulenceCorrection] succeeds exactly when every row has [c] and the
    turbulence column; it writes ["<name> Power"] with the turbulence
    curve's power at the row's wind speed and turbulence. *)
Theorem TurbulenceCorrection_rows : forall df P c ti pc,
  wind_speed_based P = true -> wind_speed_column P = Ok (Some c) ->
  ((exists res, TurbulenceCorrection_init df P ti pc = Ok res) <->
   Forall (fun r => exists ws t, getcol c r = Ok ws /\ getcol ti r = Ok t) df) /\
  (forall N df', TurbulenceCorrection_init df P ti pc = Ok (N, df') ->
   exists name, calculate_name P "Turbulence" = Ok name /\
     correction_name N = Some name /\
     power_column N = Some (Some (name ++ " Power")) /\
     Forall2 (fun r r' => exists ws t, getcol c r = Ok ws /\ getcol ti r = Ok t /\
                r' = set_col (name ++ " Power") (turbulence_power pc ws t) r) df df').
Proof. exact TurbulenceCorrection_init_rows. Qed.

Lemma TurbulenceCorrection_rows_witness :
  exists res,
    TurbulenceCorrection_init [[("WS", 10); ("TI", 0.1)]] (Source_init (Some "WS"))
      "TI" {| turbulence_power := fun ws ti => 100 * ws * (1 - ti);
              ratedPower := 2000 |} = Ok res.
Proof.
  apply (proj2 (proj1 (TurbulenceCorrection_rows [[("WS", 10); ("TI", 0.1)]]
           (Source_init (Some "WS")) "WS" "TI"
           {| turbulence_power := fun ws ti => 100 * ws * (1 - ti);
              ratedPower := 2000 |} eq_refl eq_refl))).
  constructor; [|constructor]. exists 10, 0.1. split; reflexivity.
Defined.

(** C7 (amended). [TurbulenceCorrection] on a wind-speed-based parent
    whose wind-speed column is [c] succeeds exactly when every row has [c]
    and the turbulence-intensity column, and writes into each row's
    ["<name> Power"] the curve's [power(windSpeed, turbulenceIntensity)]
    at that row's values of the two columns.  The rated power is stored in
    the [TurbulencePowerCalculator] but its [power] never reads it, so two
    rated powers, all else equal, give the same written frame. *)
Theorem turbulence_power_ignores_rated_power :
  (forall df P c ti tp rp,
     wind_speed_based P = true -> wind_speed_column P = Ok (Some c) ->
     ((exists res, TurbulenceCorrection_init df P ti
                     {| turbulence_power := tp; ratedPower := rp |} = Ok res) <->
      Forall (fun r => exists ws t, getcol c r = Ok ws /\ getcol ti r = Ok t) df) /\
     (forall N df', TurbulenceCorrection_init df P ti
                      {| turbulence_power := tp; ratedPower := rp |} = Ok (N, df') ->
      exists name, power_column N = Some (Some (name ++ " Power")) /\
        Forall2 (fun r r' => exists ws t, getcol c r = Ok ws /\ getcol ti r = Ok t /\
                   r' = set_col (name ++ " Power") (tp ws t) r) df df')) /\
  (forall pc rp1 rp2 wsc tic r,
     TurbulencePowerCalculator_power
       {| tpc_powerCurve := pc; tpc_ratedPower := rp1;
          tpc_windSpeedColumn := wsc; tpc_turbulenceColumn := tic |} r =
     TurbulencePowerCalculator_power
       {| tpc_powerCurve := pc; tpc_ratedPower := rp2;
          tpc_windSpeedColumn := wsc; tpc_turbulenceColumn := tic |} r) /\
  (forall df P ti tp r1 r2,
     res_map snd (TurbulenceCorrection_init df P ti
                    {| turbulence_power := tp; ratedPower := r1 |}) =
     res_map snd (TurbulenceCorrection_init df P ti
                    {| turbulence_power := tp; ratedPower := r2 |})).
Proof.
  split; [|split; [intros; reflexivity | intros; reflexivity]].
  intros df P c ti tp rp Hw Hc.
  destruct (TurbulenceCorrection_init_rows df P c ti
              {| turbulence_power := tp; ratedPower := rp |} Hw Hc) as [Hiff Hrows].
  split; [exact Hiff|].
  intros N df' H. destruct (Hrows N df' H) as [name [_ [_ [Hp Hf]]]].
  exists name. split; [exact Hp | exact Hf].
Qed.

Lemma turbulence_power_ignores_rated_power_witness :
  exists res,
    TurbulenceCorrection_init [[("WS", 10); ("TI", 0.1)]] (Source_init (Some "WS"))
      "TI" {| turbulence_power := fun ws ti => 100 * ws * (1 - ti);
              ratedPower := 1500 |} = Ok res.
Proof.
  apply (proj2 (proj1 (proj1 turbulence_power_ignores_rated_power [[("WS", 10); ("TI", 0.1)]]
           (Source_init (Some "WS")) "WS" "TI" (fun ws ti => 100 * ws * (1 - ti)) 1500
           eq_refl eq_refl))).
  constructor; [|constructor]. exists 10, 0.1. split; reflexivity.
Defined.

(** *** The density correction *)

(** [DensityEquivalentWindSpeed] only adds columns: every column other
    than ["<name> Wind Speed"] and ["<name> Power"] keeps its value in
    every row, and no row is added or dropped. *)
Theorem DensityEquivalentWindSpeed_keeps_columns : forall df P ref dens pc N df',
  DensityEquivalentWindSpeed_init df P ref dens pc = Ok (N, df') ->
  exists name, correction_name N = Some name /\
    Forall2 (fun r r' => forall k, k <> name ++ " Wind Speed" ->
               k <> name ++ " Power" -> getcol k r' = getcol k r) df df'.
Proof.
  intros df P ref dens pc N df' H. unfold DensityEquivalentWindSpeed_init in H.
  destruct (WindSpeedBasedCorrection_init "Density" P) as [N0|e] eqn:E0;
    cbn [bind] in H; [|discriminate].
  apply WindSpeedBasedCorrection_init_shape in E0 as [name [_ ->]].
  destruct (wind_speed_column P) as [swsc|e]; cbn [bind] in H; [|discriminate].
  cbn [wind_speed_column bind fmt_opt] in H.
  destruct (apply_assign (name ++ " Wind Speed") _ df) as [df1|e] eqn:E1;
    cbn [bind] in H; [|discriminate].
  apply WindSpeedBasedCorrection_finalise_keeps in H as [Hn Hk].
  exists name. split; [exact Hn|].
  apply apply_assign_rows in E1.
  pose proof (Forall2_compose _ _ _ _ _ E1 Hk) as Hcomp.
  eapply Forall2_impl; [|exact Hcomp].
  intros r r' [r1 [[v [_ ->]] Hk1]] k Hws Hpw.
  rewrite (Hk1 k Hpw). apply getcol_set_col_other. exact Hws.
Qed.

Lemma DensityEquivalentWindSpeed_keeps_columns_witness :
  exists N df',
    DensityEquivalentWindSpeed_init
      [[("WS", Fin 10); ("Density", Fin 1)]; [("WS", Fin 8); ("Density", Fin (-1))]]
      (Source_init (Some "WS")) 0 "Density" None = Ok (N, df') /\
    exists name, correction_name N = Some name /\
      Forall2 (fun r r' => forall k, k <> name ++ " Wind Speed" ->
                 k <> name ++ " Power" -> getcol k r' = getcol k r)
        [[("WS", Fin 10); ("Density", Fin 1)]; [("WS", Fin 8); ("Density", Fin (-1))]] df'.
Proof.
  destruct (DensityEquivalentWindSpeed_init_rows
              [[("WS", Fin 10); ("Density", Fin 1)]; [("WS", Fin 8); ("Density", Fin (-1))]]
              (Source_init (Some "WS")) "WS" 0 "Density" None eq_refl eq_refl
              ltac:(constructor; [exists (Fin 10), (Fin 1); split; reflexivity |
                    constructor; [exists (Fin 8), (Fin (-1)); split; reflexivity |
                                  constructor]]))
    as [N [df' [_ [Hrun _]]]].
  exists N, df'. split; [exact Hrun|].
  exact (DensityEquivalentWindSpeed_keeps_columns _ _ _ _ _ N df' Hrun).
Defined.

(** On a wind-speed-based parent whose wind-speed column is [c],
    [DensityEquivalentWindSpeed] succeeds exactly when every row has
    both [c] and the density column; whatever the values (a zero or
    negative density, a zero reference density), the only exceptions it
    raises are [KeyError c] and [KeyError] of the density column. *)
Theorem DensityEquivalentWindSpeed_errors : forall df P c ref dens pc,
  wind_speed_based P = true -> wind_speed_column P = Ok (Some c) ->
  ((exists res, DensityEquivalentWindSpeed_init df P ref dens pc = Ok res) <->
   Forall (fun r => exists ws d, getcol c r = Ok ws /\ getcol dens r = Ok d) df) /\
  (forall e, DensityEquivalentWindSpeed_init df P ref dens pc = Err e ->
   e = KeyError c \/ e = KeyError dens).
Proof.
  intros df P c ref dens pc Hw Hc.
  destruct (WindSpeedBasedCorrection_init_wsb "Density" P Hw) as [name [_ Hi]].
  unfold DensityEquivalentWindSpeed_init. rewrite Hi, Hc.
  cbn [bind wind_speed_column fmt_opt].
  split; [split|].
  - intros [res H].
    destruct (apply_assign (name ++ " Wind Speed") _ df) as [df1|e] eqn:E1;
      cbn [bind] in H; [|discriminate].
    assert (Hex : exists df1', apply_assign (name ++ " Wind Speed")
              (densityCorrectedHubWindSpeed
                 {| dcc_referenceDensity := ref; dcc_windSpeedColumn := Some c;
                    dcc_densityColumn := dens |}) df = Ok df1') by (exists df1; exact E1).
    apply apply_assign_total in Hex.
    eapply Forall_impl; [|exact Hex]. intros r [v Hv].
    exact (densityCorrectedHubWindSpeed_ok_inv ref c dens r v Hv).
  - intros Hall.
    assert (Hrows : Forall (fun r => exists v, densityCorrectedHubWindSpeed
              {| dcc_referenceDensity := ref; dcc_windSpeedColumn := Some c;
                 dcc_densityColumn := dens |} r = Ok v) df).
    { eapply Forall_impl; [|exact Hall]. intros r [ws [d [H1 H2]]].
      eexists. exact (densityCorrectedHubWindSpeed_ok ref c dens r ws d H1 H2). }
    destruct (proj2 (apply_assign_total (name ++ " Wind Speed") _ df) Hrows) as [df1 E1].
    rewrite E1. cbn [bind].
    exact (WindSpeedBasedCorrection_finalise_after_assign name false P _ df df1 pc E1).
  - intros e H.
    destruct (apply_assign (name ++ " Wind Speed") _ df) as [df1|e1] eqn:E1;
      cbn [bind] in H.
    + destruct (WindSpeedBasedCorrection_finalise_after_assign name false P _ df df1 pc E1)
        as [res Hres].
      rewrite Hres in H. discriminate.
    + injection H as ->. unfold apply_assign in E1.
      destruct (apply_rows _ df) as [vs|e2] eqn:E2; cbn [bind] in E1; [discriminate|].
      injection E1 as ->.
      destruct (apply_rows_err _ _ _ E2) as [r [_ Hr]].
      exact (densityCorrectedHubWindSpeed_err ref c dens r e Hr).
Qed.

Lemma DensityEquivalentWindSpeed_errors_witness :
  exists e,
    DensityEquivalentWindSpeed_init [[("WS", Fin 10)]] (Source_init (Some "WS"))
      1.225 "Density" None = Err e /\ (e = KeyError "WS" \/ e = KeyError "Density").
Proof.
  exists (KeyError "Density"). split; [reflexivity|].
  apply (proj2 (DensityEquivalentWindSpeed_errors [[("WS", Fin 10)]]
           (Source_init (Some "WS")) "WS" 1.225 "Density" None eq_refl eq_refl)).
  reflexivity.
Defined.

(** *** The out-of-range report *)

(** The report of [PowerDeviationMatrixCorrection] has one overall line
    and three lines per matrix dimension. *)
Theorem PowerDeviationMatrix_report_length : forall m,
  length (PowerDeviationMatrix_report m) = (1 + 3 * length (dimensions m))%nat.
Proof.
  intros m. unfold PowerDeviationMatrix_report. cbn [length].
  induction (dimensions m) as [|d ds IH]; [reflexivity|].
  cbn [flat_map app length]. cbn [length] in IH. rewrite IH. lia.
Qed.
